(** * whyzer: the chat-log parser of [whyzer.py]

    A shallow embedding of the [Parser] class (entry accumulation, entry
    classification, alias resolution, the multipart and initiator
    heuristics, word extraction) together with the properties of the
    design document that can be stated over it.

    Conventions of the embedding:
    - a Python [str] is a Rocq [string]; every [ascii] stands for one
      character, so the model covers texts whose characters have code
      points below 256 (the character classes [\d], [\w], [\s] and
      [str.lower] are written out for that range);
    - the mutable [Parser] object is a record threaded through the methods;
    - [sys.exit] is the [Exit] outcome, and [print] appends to an output log
      kept in the record. *)

From Stdlib Require Import ZArith NArith Ascii String Sorting.Sorted.
From stdpp Require Import base list strings gmap.

Local Open Scope string_scope.
Local Open Scope list_scope.

(** ** Characters *)

Definition code (c : ascii) : N := N_of_ascii c.

Definition in_range (lo hi : N) (c : ascii) : bool :=
  ((lo <=? code c) && (code c <=? hi))%N.

(** [\d] on [str]: the decimal digits (below 256 these are 0-9 only). *)
Definition is_digit (c : ascii) : bool := in_range 48 57 c.

(** [\w] on [str]: [str.isalnum] or underscore. *)
Definition is_word (c : ascii) : bool :=
  in_range 48 57 c || in_range 65 90 c || (code c =? 95)%N || in_range 97 122 c
  || (code c =? 170)%N || in_range 178 179 c || (code c =? 181)%N
  || in_range 185 186 c || in_range 188 190 c
  || in_range 192 214 c || in_range 216 246 c || in_range 248 255 c.

(** [\s] on [str], also the characters removed by [str.strip()]. *)
Definition is_space (c : ascii) : bool :=
  in_range 9 13 c || in_range 28 32 c || (code c =? 133)%N || (code c =? 160)%N.

(** [str.lower] on one character. *)
Definition lower_char (c : ascii) : ascii :=
  if in_range 65 90 c || in_range 192 214 c || in_range 216 222 c
  then ascii_of_N (code c + 32) else c.

Fixpoint lower (s : string) : string :=
  match s with
  | EmptyString => EmptyString
  | String c s' => String (lower_char c) (lower s')
  end.

Definition newline : ascii := ascii_of_N 10.
Definition dquote : ascii := ascii_of_N 34.

(** [c in s] for a one-character needle. *)
Fixpoint contains_char (c : ascii) (s : string) : bool :=
  match s with
  | EmptyString => false
  | String d s' => Ascii.eqb c d || contains_char c s'
  end.

(** [s.split(" ")[0]]: the text before the first space. *)
Fixpoint split_first (sep : ascii) (s : string) : string :=
  match s with
  | EmptyString => EmptyString
  | String c s' => if Ascii.eqb c sep then EmptyString else String c (split_first sep s')
  end.

(** [str.strip()]. *)
Fixpoint lstrip (s : string) : string :=
  match s with
  | EmptyString => EmptyString
  | String c s' => if is_space c then lstrip s' else s
  end.

Fixpoint rstrip (s : string) : string :=
  match s with
  | EmptyString => EmptyString
  | String c s' =>
      match rstrip s' with
      | EmptyString => if is_space c then EmptyString else String c EmptyString
      | r => String c r
      end
  end.

Definition strip (s : string) : string := rstrip (lstrip s).

(** ** Regular expressions

    The fragment of [re] the program uses: anchors, single characters and
    classes, greedy and lazy repetition of a class, and capturing groups.
    Matching is Python's backtracking search, leftmost alternative first. *)

Module Re.

Inductive charset :=
| Lit (c : ascii)          (* a literal character *)
| Digit                    (* \d *)
| Dot (dotall : bool).     (* . , with or without re.DOTALL *)

Definition mem (cs : charset) (c : ascii) : bool :=
  match cs with
  | Lit d => Ascii.eqb c d
  | Digit => is_digit c
  | Dot dotall => dotall || negb (Ascii.eqb c newline)
  end.

Inductive item :=
| Caret                                  (* ^ *)
| Dollar                                 (* $ *)
| One (cs : charset)
| Star (cs : charset) (greedy : bool)    (* cs* and cs*? *)
| GOpen                                  (* ( *)
| GClose.                                (* ) *)

Definition regex := list item.

(** The literal text [s] as a pattern. *)
Fixpoint lits (s : string) : regex :=
  match s with
  | EmptyString => []
  | String c s' => One (Lit c) :: lits s'
  end.

(** Matcher state: characters consumed so far, start of the open group and
    the spans (start, end) of the groups closed so far, latest first. The
    patterns of the program have no nested groups. *)
Record mstate := MState {
  pos : nat;
  gstart : nat;
  spans : list (nat * nat)
}.

Definition advance (st : mstate) : mstate :=
  MState (S (pos st)) (gstart st) (spans st).
Definition gopen (st : mstate) : mstate :=
  MState (pos st) (pos st) (spans st).
Definition gclose (st : mstate) : mstate :=
  MState (pos st) (gstart st) ((gstart st, pos st) :: spans st).

(** [$] without re.MULTILINE: at the end of the text, or just before a
    newline that ends the text. *)
Definition at_end (s : string) : bool :=
  match s with
  | EmptyString => true
  | String c EmptyString => Ascii.eqb c newline
  | _ => false
  end.

Fixpoint run (r : regex) : string -> mstate -> option mstate :=
  match r with
  | [] => fun _ st => Some st
  | Caret :: r' => fun s st => if Nat.eqb (pos st) 0 then run r' s st else None
  | Dollar :: r' => fun s st => if at_end s then run r' s st else None
  | One cs :: r' => fun s st =>
      match s with
      | String c s' => if mem cs c then run r' s' (advance st) else None
      | EmptyString => None
      end
  | Star cs true :: r' =>
      fix star (s : string) (st : mstate) : option mstate :=
        match s with
        | String c s' =>
            if mem cs c then
              match star s' (advance st) with
              | Some m => Some m
              | None => run r' s st
              end
            else run r' s st
        | EmptyString => run r' s st
        end
  | Star cs false :: r' =>
      fix star (s : string) (st : mstate) : option mstate :=
        match run r' s st with
        | Some m => Some m
        | None =>
            match s with
            | String c s' => if mem cs c then star s' (advance st) else None
            | EmptyString => None
            end
        end
  | GOpen :: r' => fun s st => run r' s (gopen st)
  | GClose :: r' => fun s st => run r' s (gclose st)
  end.

(** [re.compile(r).match(s)]: the captured groups, first group first. *)
Definition rmatch (r : regex) (s : string) : option (list string) :=
  match run r s (MState 0 0 []) with
  | Some st => Some (map (fun '(a, b) => substring a (b - a) s) (rev (spans st)))
  | None => None
  end.

(** Truth value of the result of [match]. *)
Definition matches (r : regex) (s : string) : bool :=
  match rmatch r s with
  | Some _ => true
  | None => false
  end.

(** [m.group(1)] and [m.group(2)]. *)
Definition group (n : nat) (gs : list string) : string :=
  nth (n - 1) gs EmptyString.

End Re.

(** ** Dates and times *)

(** A naive [datetime.datetime]. *)
Record datetime := DateTime {
  year : Z; month : Z; day : Z;
  hour : Z; minute : Z; second : Z; microsecond : Z
}.

Definition is_leap (y : Z) : bool :=
  ((y mod 4 =? 0) && (negb (y mod 100 =? 0) || (y mod 400 =? 0)))%Z.

Definition days_in_month (y m : Z) : Z :=
  (if m =? 2 then (if is_leap y then 29 else 28)
   else if (m =? 4) || (m =? 6) || (m =? 9) || (m =? 11) then 30 else 31)%Z.

Definition days_before_year (y : Z) : Z :=
  ((y - 1) * 365 + (y - 1) / 4 - (y - 1) / 100 + (y - 1) / 400)%Z.

Definition days_before_month (y m : Z) : Z :=
  fold_right Z.add 0%Z
    (map (days_in_month y) (map Z.of_nat (seq 1 (Z.to_nat (m - 1))))).

(** [date.toordinal()]. *)
Definition toordinal (d : datetime) : Z :=
  (days_before_year (year d) + days_before_month (year d) (month d) + day d)%Z.

(** Microseconds since the start of day 0 of the proleptic calendar. *)
Definition total_us (d : datetime) : Z :=
  ((((toordinal d * 24 + hour d) * 60 + minute d) * 60 + second d) * 1000000
   + microsecond d)%Z.

(** [(a - b)], a [timedelta], as a whole number of microseconds. *)
Definition sub_us (a b : datetime) : Z := (total_us a - total_us b)%Z.

(** [delta.total_seconds() < n] for a whole number [n] of seconds.
    [total_seconds] is the float nearest to [us / 10**6]; rounding is
    monotone and [n] is a float itself, so the float comparison agrees
    with the comparison of the exact values. *)
Definition total_seconds_lt (us : Z) (n : Z) : bool := (us <? n * 1000000)%Z.

(** The [datetime] constructor's range checks (ValueError otherwise). *)
Definition valid_date (y m d : Z) : bool :=
  ((1 <=? y) && (y <=? 9999) && (1 <=? m) && (m <=? 12)
   && (1 <=? d) && (d <=? days_in_month y m))%Z.

(** *** [datetime.strptime]

    The format is compiled to a regular expression, directive by
    directive, each a choice between fixed-width alternatives tried in
    order; a space in the format stands for [\s+]. The first match of the
    whole expression is taken and must cover the whole text. *)

Inductive directive :=
| Dd | Dm | DY | Dy | DH | DM          (* %d %m %Y %y %H %M *)
| DLit (c : ascii)                      (* punctuation, matched as is *)
| DSpace.                               (* whitespace in the format *)

Definition one_of (s : string) (c : ascii) : bool := contains_char c s.

Definition alternatives (d : directive) : list (list (ascii -> bool)) :=
  match d with
  | Dd => [[one_of "3"; one_of "01"]; [one_of "12"; is_digit];
           [one_of "0"; one_of "123456789"]; [one_of "123456789"];
           [one_of " "; one_of "123456789"]]
  | Dm => [[one_of "1"; one_of "012"]; [one_of "0"; one_of "123456789"];
           [one_of "123456789"]]
  | DY => [[is_digit; is_digit; is_digit; is_digit]]
  | Dy => [[is_digit; is_digit]]
  | DH => [[one_of "2"; one_of "0123"]; [one_of "01"; is_digit]; [is_digit]]
  | DM => [[one_of "012345"; is_digit]; [is_digit]]
  | DLit _ | DSpace => []
  end.

Fixpoint take_alt (alt : list (ascii -> bool)) (s : string) : option (string * string) :=
  match alt with
  | [] => Some (EmptyString, s)
  | f :: alt' =>
      match s with
      | String c s' =>
          if f c then
            match take_alt alt' s' with
            | Some (t, rest) => Some (String c t, rest)
            | None => None
            end
          else None
      | EmptyString => None
      end
  end.

(** [int(text)] for a text of decimal digits after optional blanks. *)
Fixpoint int_digits (s : string) (acc : Z) : Z :=
  match s with
  | EmptyString => acc
  | String c s' =>
      if is_digit c then int_digits s' (acc * 10 + Z.of_N (code c) - 48)%Z
      else int_digits s' acc
  end.
Definition int_of (s : string) : Z := int_digits s 0%Z.

Fixpoint strp_run (fmt : list directive) : string -> list (directive * Z) -> option (list (directive * Z) * string) :=
  match fmt with
  | [] => fun s acc => Some (acc, s)
  | DLit c :: fmt' => fun s acc =>
      match s with
      | String c' s' => if Ascii.eqb c c' then strp_run fmt' s' acc else None
      | EmptyString => None
      end
  | DSpace :: fmt' =>
      fix spaces (s : string) (acc : list (directive * Z)) :=
        match s with
        | String c s' =>
            if is_space c then
              match spaces s' acc with
              | Some r => Some r
              | None => strp_run fmt' s' acc
              end
            else None
        | EmptyString => None
        end
  | d :: fmt' => fun s acc =>
      fold_right
        (fun alt (otherwise : option (list (directive * Z) * string)) =>
           match take_alt alt s with
           | Some (t, rest) =>
               match strp_run fmt' rest ((d, int_of t) :: acc) with
               | Some r => Some r
               | None => otherwise
               end
           | None => otherwise
           end)
        None (alternatives d)
  end.

Definition directive_eqb (a b : directive) : bool :=
  match a, b with
  | Dd, Dd | Dm, Dm | DY, DY | Dy, Dy | DH, DH | DM, DM => true
  | _, _ => false
  end.

Definition field (d : directive) (default : Z) (fs : list (directive * Z)) : Z :=
  match find (fun x => directive_eqb d (fst x)) fs with
  | Some (_, v) => v
  | None => default
  end.

(** [datetime.strptime(s, fmt)]; [None] stands for ValueError. *)
Definition strptime (s : string) (fmt : list directive) : option datetime :=
  match strp_run fmt s [] with
  | Some (fs, EmptyString) =>
      let y := match find (fun x => directive_eqb Dy (fst x)) fs with
               | Some (_, v) => (if v <? 69 then 2000 + v else 1900 + v)%Z
               | None => field DY 1900%Z fs
               end in
      let m := field Dm 1%Z fs in
      let d := field Dd 1%Z fs in
      if valid_date y m d
      then Some (DateTime y m d (field DH 0%Z fs) (field DM 0%Z fs) 0 0)
      else None
  | _ => None
  end.

(** ** Locale profiles: the [languages] table *)

Record Language := {
  date_content : Re.regex;
  deleted : Re.regex;
  media : Re.regex;
  date_format : list directive;
  created : Re.regex;
  rename : Re.regex
}.

Import Re.

Definition dd : regex := [One Digit; One Digit].

(** [languages["en"]]. The ["de"] entry uses quotation marks outside the
    8-bit range and is not instantiated; the results below that hold for
    every profile are stated for an arbitrary [Language]. *)
Definition en : Language := {|
  date_content :=
    [Caret; GOpen] ++ dd ++ lits "/" ++ dd ++ lits "/" ++ dd ++ dd ++ lits ", "
      ++ dd ++ lits ":" ++ dd ++ [GClose] ++ lits " - "
      ++ [GOpen; Star (Dot false) true; GClose; Dollar];
  deleted := [Caret] ++ lits "This message was deleted" ++ [Dollar];
  media := [Caret] ++ lits "<Media omitted>" ++ [Dollar];
  date_format :=
    [Dd; DLit "/"; Dm; DLit "/"; DY; DLit ","; DSpace; DH; DLit ":"; DM];
  created :=
    [Caret; Star (Dot false) true] ++ lits " created Group " ++ [One (Lit dquote)]
      ++ [GOpen; Star (Dot false) true; GClose; One (Lit dquote); Dollar];
  rename :=
    [Caret; Star (Dot false) true] ++ lits " changed the subject from "
      ++ [One (Lit dquote); Star (Dot false) true; One (Lit dquote)] ++ lits " to "
      ++ [One (Lit dquote); GOpen; Star (Dot false) true; GClose;
          One (Lit dquote); Dollar]
|}.

(** [self.regex_message]: a lazy group, a colon and a space, a greedy
    group up to the end, compiled with re.DOTALL. *)
Definition regex_message : regex :=
  [Caret; GOpen; Star (Dot true) false; GClose] ++ lits ": "
    ++ [GOpen; Star (Dot true) true; GClose; Dollar].

(** [re.compile(r"[\w'-]+").finditer(body)]: the maximal runs of word
    characters, apostrophes and hyphens, left to right. [cur] is the run
    being read. *)
Definition is_word_part (c : ascii) : bool :=
  is_word c || Ascii.eqb c "'" || Ascii.eqb c "-".

Fixpoint finditer_from (s cur : string) : list string :=
  match s with
  | EmptyString => match cur with EmptyString => [] | _ => [cur] end
  | String c s' =>
      if is_word_part c then finditer_from s' (cur +:+ String c EmptyString)
      else match cur with
           | EmptyString => finditer_from s' EmptyString
           | _ => cur :: finditer_from s' EmptyString
           end
  end.

Definition regex_words_finditer (body : string) : list string :=
  finditer_from body EmptyString.

(** ** The parser state *)

(** One element of [self.msgs]: the list
    [[author, date, len(body), parts, initiator]]. *)
Record Message := Msg {
  member : string;
  date : datetime;
  body_len : nat;
  parts : nat;
  initiator : bool
}.

(** What [print] writes. [Stdout_exc] is [print(e)] for the [ValueError]
    caught in [handle_entry]; its text is not modelled. *)
Inductive pyval := VStr (s : string) | VInt (n : Z).
Inductive output :=
| Stdout (args : list pyval)
| Stderr (args : list pyval)
| Stdout_exc.

Record Parser := MkParser {
  regex_date_content : regex;
  regex_deleted : regex;
  regex_media : regex;
  regex_created : regex;
  regex_rename : regex;
  p_date_format : list directive;
  date_buffer : option string;
  content_buffer : string;
  chat_name : option string;
  aliases : gmap string string;
  multipart : bool;
  member_msg_count : gmap string Z;
  msgs : list Message;
  all_words : string;
  common_words : list string;
  out : list output             (* everything printed so far, oldest first *)
}.

Definition set_buffers (db : option string) (cb : string) (p : Parser) : Parser :=
  MkParser (regex_date_content p) (regex_deleted p) (regex_media p)
    (regex_created p) (regex_rename p) (p_date_format p)
    db cb (chat_name p) (aliases p) (multipart p)
    (member_msg_count p) (msgs p) (all_words p) (common_words p) (out p).

Definition set_chat_name (n : option string) (p : Parser) : Parser :=
  MkParser (regex_date_content p) (regex_deleted p) (regex_media p)
    (regex_created p) (regex_rename p) (p_date_format p)
    (date_buffer p) (content_buffer p) n (aliases p) (multipart p)
    (member_msg_count p) (msgs p) (all_words p) (common_words p) (out p).

Definition set_msgs (ms : list Message) (p : Parser) : Parser :=
  MkParser (regex_date_content p) (regex_deleted p) (regex_media p)
    (regex_created p) (regex_rename p) (p_date_format p)
    (date_buffer p) (content_buffer p) (chat_name p) (aliases p) (multipart p)
    (member_msg_count p) ms (all_words p) (common_words p) (out p).

Definition set_all_words (w : string) (p : Parser) : Parser :=
  MkParser (regex_date_content p) (regex_deleted p) (regex_media p)
    (regex_created p) (regex_rename p) (p_date_format p)
    (date_buffer p) (content_buffer p) (chat_name p) (aliases p) (multipart p)
    (member_msg_count p) (msgs p) w (common_words p) (out p).

Definition print (o : output) (p : Parser) : Parser :=
  MkParser (regex_date_content p) (regex_deleted p) (regex_media p)
    (regex_created p) (regex_rename p) (p_date_format p)
    (date_buffer p) (content_buffer p) (chat_name p) (aliases p) (multipart p)
    (member_msg_count p) (msgs p) (all_words p) (common_words p) (out p ++ [o]).

(** [Parser.__init__]. [language] is the profile (a language code is looked
    up in [languages] first), [aliases] the optional alias dictionary and
    [cw_lines] the lines of the common-words file. [defaultdict(int)] is
    the empty map read with default 0. *)
Definition Parser_init (language : Language) (aliases : option (gmap string string))
    (multipart : bool) (cw_lines : list string) : Parser :=
  {| regex_date_content := date_content language;
     regex_deleted := deleted language;
     regex_media := media language;
     regex_created := created language;
     regex_rename := rename language;
     p_date_format := date_format language;
     date_buffer := None;
     content_buffer := EmptyString;
     chat_name := None;
     aliases := default ∅ aliases;
     multipart := multipart;
     member_msg_count := ∅;
     msgs := [];
     all_words := EmptyString;
     common_words := map strip cw_lines;
     out := [] |}.

(** [self.member_msg_count[author]] read through the [defaultdict]. *)
Definition msg_count (p : Parser) (author : string) : Z :=
  default 0%Z (member_msg_count p !! author).

(** Outcome of a method: it returns, or the process exits. *)
Inductive result :=
| Ok (p : Parser)
| Exit (status : Z) (p : Parser).

Definition bind (r : result) (k : Parser -> result) : result :=
  match r with
  | Ok p => k p
  | Exit c p => Exit c p
  end.

Notation "x <- r ;; k" := (bind r (fun x => k))
  (at level 100, r at next level, right associativity).

(** ** [Parser.handle_text_message] *)

(** The loop over [self.regex_words.finditer(body)]. *)
Definition add_word (cw : list string) (acc word : string) : string :=
  let word := lower word in
  if existsb (String.eqb word) cw then acc else acc +:+ " " +:+ word.

Definition extract_words (cw : list string) (acc body : string) : string :=
  fold_left (add_word cw) (regex_words_finditer body) acc +:+ ". ".

(** The two flags computed at the head of [handle_text_message]:
    [(multipart, initiator)]. *)
Definition flags (p : Parser) (date0 : datetime) (author body : string) : bool * bool :=
  match multipart p, last (msgs p) with
  | true, Some prev =>
      let diff := sub_us date0 (date prev) in
      let initiator :=
        if total_seconds_lt diff (60 * 60 * 24) || negb (contains_char "?" body)
        then false else true in
      let multipart :=
        String.eqb (member prev) author && total_seconds_lt diff (60 * 3) in
      (multipart, initiator)
  | _, _ => (false, true)
  end.

Definition add_part (body : string) (m : Message) : Message :=
  Msg (member m) (date m) (body_len m + String.length body) (parts m + 1) (initiator m).

Definition handle_text_message (date0 : datetime) (author body : string)
    (p : Parser) : Parser :=
  let '(multipart, initiator) := flags p date0 author body in
  let p := set_all_words (extract_words (common_words p) (all_words p) body) p in
  if multipart
  then set_msgs (alter (add_part body) (pred (length (msgs p))) (msgs p)) p
  else set_msgs (msgs p ++ [Msg author date0 (String.length body) 1 initiator]) p.

(** ** [Parser.handle_entry] *)

(** The two [if]s that rewrite [author]. *)
Definition resolve_author (al : gmap string string) (author : string) : string :=
  let author := match al !! author with Some a => a | None => author end in
  if contains_char " " author && negb (contains_char "+" author)
  then split_first " " author
  else author.

Definition handle_notice (p : Parser) : Parser :=
  let p := match rmatch (regex_created p) (content_buffer p) with
           | Some gs =>
               let p := set_chat_name (Some (group 1 gs)) p in
               print (Stdout [VStr "Created:"; VStr (group 1 gs)]) p
           | None => p
           end in
  match rmatch (regex_rename p) (content_buffer p) with
  | Some gs =>
      let p := set_chat_name (Some (group 1 gs)) p in
      print (Stdout [VStr "Renamed:"; VStr (group 1 gs)]) p
  | None => p
  end.

Definition handle_entry (p : Parser) : result :=
  match date_buffer p with
  | None =>
      Exit 1 (print (Stderr [VStr "No entry was found. Make sure you used the right language code."]) p)
  | Some db =>
      match strptime db (p_date_format p) with
      | None =>
          Exit 1 (print Stdout_exc
                    (print (Stderr [VStr "Error while parsing date. Make sure you used the right language code."]) p))
      | Some date0 =>
          match rmatch regex_message (content_buffer p) with
          | Some gs =>
              let author := resolve_author (aliases p) (group 1 gs) in
              let body := group 2 gs in
              if matches (regex_deleted p) body then Ok p
              else if matches (regex_media p) body then Ok p
              else Ok (handle_text_message date0 author body p)
          | None => Ok (handle_notice p)
          end
      end
  end.

(** ** [Parser.parse_line] and [Parser.parse_file] *)

(** Truth value of [self.date_buffer]: neither [None] nor empty. *)
Definition truthy (o : option string) : bool :=
  match o with
  | Some (String _ _) => true
  | _ => false
  end.

Definition parse_line (line : string) (p : Parser) : result :=
  match rmatch (regex_date_content p) line with
  | Some gs =>
      p <- (if truthy (date_buffer p) then handle_entry p else Ok p) ;;
      Ok (set_buffers (Some (group 1 gs)) (group 2 gs) p)
  | None =>
      Ok (set_buffers (date_buffer p)
            (content_buffer p +:+ String newline EmptyString +:+ line) p)
  end.

(** The [for] loop of [parse_file]; [i] counts the lines read so far. *)
Fixpoint parse_loop (fp : list string) (i : Z) (p : Parser) : result * Z :=
  match fp with
  | [] => (Ok p, i)
  | line :: fp' =>
      match parse_line line p with
      | Ok p =>
          let i := (i + 1)%Z in
          let p := if (i mod 500 =? 0)%Z
                   then print (Stdout [VInt i; VStr "lines parsed"]) p else p in
          parse_loop fp' i p
      | Exit c p => (Exit c p, i)
      end
  end.

(** [fp] is the sequence of lines the file object yields. *)
Definition parse_file (fp : list string) (p : Parser) : result :=
  let p := print (Stdout [VStr "Parsing file..."]) p in
  let '(r, i) := parse_loop fp 0%Z p in
  p <- r ;;
  p <- handle_entry p ;;
  Ok (print (Stdout [VStr "Done parsing."; VInt i; VStr "lines,";
                     VInt (Z.of_nat (length (msgs p))); VStr "messages"]) p).

(** ** [visualize]: the per-member figures

    [msgs.groupby("member").agg({"date": "count", ...})]: the number of
    rows of [self.msgs] per member. *)
Definition count_per_member (ms : list Message) (a : string) : nat :=
  length (filter (fun m => member m = a) ms).

(** The sum of the [parts] column over the rows of one member. *)
Definition parts_per_member (ms : list Message) (a : string) : nat :=
  foldr Nat.add 0 (map parts (filter (fun m => member m = a) ms)).

(** A sequence of calls of [handle_text_message], oldest first. *)
Definition call : Type := datetime * string * string.

Definition ingest (p : Parser) (c : call) : Parser :=
  let '(d, a, b) := c in handle_text_message d a b p.

Definition ingest_all (calls : list call) (p : Parser) : Parser :=
  fold_left ingest calls p.

Definition calls_by (a : string) (calls : list call) : nat :=
  length (filter (fun c : call => snd (fst c) = a) calls).

(** * Vocabulary of the properties *)

(** Two parsers agree on the fields [handle_text_message] reads or
    writes. *)
Definition same_agg (p q : Parser) : Prop :=
  multipart p = multipart q /\ common_words p = common_words q
  /\ member_msg_count p = member_msg_count q
  /\ msgs p = msgs q /\ all_words p = all_words q.

(** The patterns and the date format never change. *)
Definition same_profile (p q : Parser) : Prop :=
  regex_date_content p = regex_date_content q /\ p_date_format p = p_date_format q.

(** The timestamp of the entry being accumulated, when there is one. *)
Definition pending (p : Parser) : list datetime :=
  match date_buffer p with
  | Some db => match strptime db (p_date_format p) with
               | Some d => [d]
               | None => []
               end
  | None => []
  end.

(** The timestamps of the entry-start lines of an input, in input order. *)
Definition entry_dates (re : regex) (fmt : list directive) (fp : list string) : list datetime :=
  omap (fun line => match rmatch re line with
                    | Some gs => strptime (group 1 gs) fmt
                    | None => None
                    end) fp.

(** The timestamp a call passes. *)
Definition call_date (c : call) : datetime := fst (fst c).

(** [a <= b] on timestamps. *)
Definition dt_le (a b : datetime) : Prop := (total_us a <= total_us b)%Z.

(** The record appended for a message that is not merged and keeps its
    initiator flag. *)
Definition fresh_record (c : call) : Message :=
  let '(d, a, b) := c in Msg a d (String.length b) 1 true.

(** The tokens of a body that reach the corpus: lowercased, and not in the
    common-word list. *)
Definition kept_words (cw : list string) (body : string) : list string :=
  filter (fun w => w ∉ cw) (map lower (regex_words_finditer body)).

(** Each token preceded by a space. *)
Definition render (ws : list string) : string :=
  foldr (fun w acc => " " +:+ w +:+ acc) EmptyString ws.

(** The diagnostic of [handle_entry] when no entry was ever started. *)
Definition no_entry_message : output :=
  Stderr [VStr "No entry was found. Make sure you used the right language code."].

(** One assignment of the title as [handle_entry] makes it:
    [self.chat_name = t], then [print(kind, self.chat_name)]. *)
Definition assign_title (kt : string * string) (p : Parser) : Parser :=
  print (Stdout [VStr (fst kt); VStr (snd kt)])
    (set_chat_name (Some (snd kt)) p).

(** The assignments [handle_entry] makes for a notice, in order: one if
    the created pattern matches the content, then one if the rename
    pattern does. *)
Definition notice_titles (p : Parser) : list (string * string) :=
  match rmatch (regex_created p) (content_buffer p) with
  | Some gs => [("Created:", group 1 gs)]
  | None => []
  end
  ++ match rmatch (regex_rename p) (content_buffer p) with
     | Some gs => [("Renamed:", group 1 gs)]
     | None => []
     end.

(** [self.chat_name] when a method has returned or the process has
    exited. *)
Definition title_of (r : result) : option string :=
  match r with
  | Ok q => chat_name q
  | Exit _ q => chat_name q
  end.

(** [self.chat_name] after the first [k] iterations of the loop of
    [parse_file]. *)
Definition title_after (k : nat) (fp : list string) (p : Parser) : option string :=
  title_of (fst (parse_loop (take k fp) 0
                   (print (Stdout [VStr "Parsing file..."]) p))).

(** The values [self.chat_name] has in the course of [parse_file]: before
    the loop, after each of its iterations, and when [parse_file] is
    done. *)
Definition title_history (fp : list string) (p : Parser) : list (option string) :=
  map (fun k => title_after k fp p) (seq 0 (S (length fp)))
  ++ [title_of (parse_file fp p)].

(** How often a sequence of values changes from one element to the next.
    Every change of [self.chat_name] is an assignment. *)
Fixpoint changes (l : list (option string)) : nat :=
  match l with
  | x :: l' =>
      match l' with
      | y :: _ => (if decide (x = y) then 0 else 1) + changes l'
      | [] => 0
      end
  | [] => 0
  end.

Definition title_changes (fp : list string) (p : Parser) : nat :=
  changes (title_history fp p).

(** Sample notices of the English profile. *)
Definition quoted (s : string) : string :=
  String dquote s +:+ String dquote EmptyString.

Definition eol : string := String newline EmptyString.

Definition created_line : string :=
  "01/01/2020, 10:00 - Ann created Group " +:+ quoted "Trip" +:+ eol.

Definition rename_content : string :=
  "Ann changed the subject from " +:+ quoted "Trip" +:+ " to " +:+ quoted "Trip 2".

Definition rename_line : string :=
  "01/01/2020, 10:01 - " +:+ rename_content +:+ eol.

Definition created_content : string := "Ann created Group " +:+ quoted "Trip".

Definition rename_content_again : string :=
  "Ann changed the subject from " +:+ quoted "Trip 2" +:+ " to " +:+ quoted "Trip 3".

(** A family of inputs: a creation notice followed by [n] rename notices
    that set the title to [Trip 2] and to [Trip 3] in turn. [nth_content]
    and [nth_title] are the content of the notice on line [n] and the
    title it sets. *)
Definition rename_nth (k : nat) : string :=
  if Nat.even k then "01/01/2020, 10:01 - " +:+ rename_content +:+ eol
  else "01/01/2020, 10:02 - " +:+ rename_content_again +:+ eol.

Fixpoint renames (n : nat) : list string :=
  match n with
  | 0 => []
  | S k => renames k ++ [rename_nth k]
  end.

Definition nth_content (n : nat) : string :=
  match n with
  | 0 => created_content
  | S k => if Nat.even k then rename_content else rename_content_again
  end.

Definition nth_title (n : nat) : string :=
  match n with
  | 0 => "Trip"
  | S k => if Nat.even k then "Trip 2" else "Trip 3"
  end.

(** The title after [k] lines of the family: line [k - 1] is in the
    buffers, line [k - 2] was the last one handed over. *)
Definition title_at (k : nat) : option string :=
  match k with
  | 0 | 1 => None
  | S (S m) => Some (nth_title m)
  end.

(** The state while the notices of the family are read: the English
    profile, a notice with content [c] in the buffers, and the title
    [t]. *)
Definition reading_notices (t : option string) (c : string) (p : Parser) : Prop :=
  regex_date_content p = date_content en /\ regex_created p = created en
  /\ regex_rename p = rename en /\ p_date_format p = date_format en
  /\ (exists db, date_buffer p = Some db /\ truthy (Some db) = true
                 /\ is_Some (strptime db (date_format en)))
  /\ content_buffer p = c /\ chat_name p = t.

(** The three lines of the scenario, and the lines as the file object
    yields them, each with its line terminator. *)
Definition scenario_lines : list string :=
  ["01/01/2020, 10:00 - Alice: Hello";
   "01/01/2020, 10:01 - Alice: How are you?";
   "02/01/2020, 10:05 - Bob: I am fine, thanks for asking?"].

Definition scenario : list string :=
  map (fun line => line +:+ eol) scenario_lines.

(** The message list of a run that completes. *)
Definition messages_of (r : result) : option (list Message) :=
  match r with
  | Ok p => Some (msgs p)
  | Exit _ _ => None
  end.

(** [Parser("en")] with an empty common-words file, and the same with
    [multipart=False]. *)
Definition p_en : Parser := Parser_init en None true [].
Definition p_en_single : Parser := Parser_init en None false [].

Definition jan1_1000 : datetime := DateTime 2020 1 1 10 0 0 0.
Definition jan1_1001 : datetime := DateTime 2020 1 1 10 1 0 0.
Definition jan2_1000 : datetime := DateTime 2020 1 2 10 0 0 0.
Definition jan2_1005 : datetime := DateTime 2020 1 2 10 5 0 0.

(** The calls of [handle_text_message] the scenario makes. *)
Definition scenario_calls : list call :=
  [(jan1_1000, "Alice", "Hello"); (jan1_1001, "Alice", "How are you?");
   (jan2_1005, "Bob", "I am fine, thanks for asking?")].

Definition bob_alias : gmap string string := {["Bob" := "Jane Doe"]}.

Definition rename_line_again : string :=
  "01/01/2020, 10:02 - Ann changed the subject from " +:+ quoted "Trip 2"
    +:+ " to " +:+ quoted "Trip 3" +:+ eol.


(** Two entries, the older one second. *)
Definition backwards : list string :=
  ["02/01/2020, 10:00 - Alice: Hello" +:+ eol;
   "01/01/2020, 10:00 - Bob: Hi" +:+ eol].

(** ** Totals over the message list and over a sequence of calls *)

(** Sum of the [parts] column and of the [body_len] column. *)
Definition total_parts (ms : list Message) : nat :=
  foldr Nat.add 0 (map parts ms).

Definition total_body_len (ms : list Message) : nat :=
  foldr Nat.add 0 (map body_len ms).

(** [len(body)] summed over the calls. *)
Definition call_body (c : call) : string := snd c.
Definition call_author (c : call) : string := snd (fst c).

Definition bodies_len (calls : list call) : nat :=
  foldr Nat.add 0 (map (fun c => String.length (call_body c)) calls).

(** What the calls add to [self.all_words], one rendering and one
    terminator per call. *)
Definition corpus_of (cw : list string) (calls : list call) : string :=
  foldr (fun c acc => render (kept_words cw (call_body c)) +:+ ". " +:+ acc)
    EmptyString calls.

(** [msgs.groupby("member").agg({"initiator": "sum"})]: the number of
    rows of a member whose initiator flag is set. *)
Definition init_per_member (ms : list Message) (a : string) : nat :=
  length (filter (fun m => member m = a /\ initiator m = true) ms).

(** [m'] is the record [m] after some merges: same author, timestamp and
    initiator flag, at least as many parts and characters. *)
Definition grown_from (m m' : Message) : Prop :=
  member m' = member m /\ date m' = date m /\ initiator m' = initiator m
  /\ parts m <= parts m' /\ body_len m <= body_len m'.

(** ** Vocabulary of a parse run *)

(** The second diagnostic of [handle_entry]. *)
Definition date_error_message : output :=
  Stderr [VStr "Error while parsing date. Make sure you used the right language code."].

(** The line [parse_file] prints last. *)
Definition summary_line (lines messages : nat) : output :=
  Stdout [VStr "Done parsing."; VInt (Z.of_nat lines); VStr "lines,";
          VInt (Z.of_nat messages); VStr "messages"].

(** The timestamp texts of the entry-start lines of an input, in order. *)
Definition entry_stamps (re : regex) (fp : list string) : list string :=
  omap (fun line => match rmatch re line with
                    | Some gs => Some (group 1 gs)
                    | None => None
                    end) fp.

(** The timestamp text is accepted by [strptime]. *)
Definition parses (fmt : list directive) (g : string) : Prop :=
  is_Some (strptime g fmt).

(** The timestamp text of the entry being accumulated, when there is one. *)
Definition pending_stamp (p : Parser) : list string :=
  match date_buffer p with
  | Some g => [g]
  | None => []
  end.

(** The progress lines among what was printed. *)
Definition is_progress (o : output) : bool :=
  match o with
  | Stdout [VInt _; VStr s] => String.eqb s "lines parsed"
  | _ => false
  end.

Definition progress_lines (o : list output) : nat :=
  length (List.filter is_progress o).

(** What continuation lines add to [self.content_buffer]. *)
Definition continuation (fp : list string) : string :=
  foldr (fun line acc => String newline EmptyString +:+ line +:+ acc)
    EmptyString fp.

(** How a fatal run ends: with the first diagnostic, or with the second
    followed by the text of the exception. *)
Definition fatal_output (o : list output) : Prop :=
  last o = Some no_entry_message
  \/ exists o', o = o' ++ [date_error_message; Stdout_exc].

(** ** Vocabulary of entry classification *)

(** The text starts with a colon and a space. *)
Definition starts_sep (s : string) : bool :=
  match s with
  | String c1 (String c2 _) => Ascii.eqb c1 ":" && Ascii.eqb c2 " "
  | _ => false
  end.

(** [": " in s]. *)
Fixpoint has_sep (s : string) : bool :=
  match s with
  | String c s' => starts_sep s || has_sep s'
  | EmptyString => false
  end.

(** [s.find(": ")]. *)
Fixpoint find_sep (s : string) : option nat :=
  match s with
  | String c s' =>
      if starts_sep s then Some 0
      else match find_sep s' with Some n => Some (S n) | None => None end
  | EmptyString => None
  end.

(** The text has one character of each class, in order, and no more. *)
Fixpoint has_shape (cs : list charset) (s : string) : bool :=
  match cs, s with
  | [], EmptyString => true
  | c :: cs', String x s' => mem c x && has_shape cs' s'
  | _, _ => false
  end.

(** The shape of an English timestamp: DD/MM/YYYY, HH:MM. *)
Definition stamp_shape : list charset :=
  [Digit; Digit; Lit "/"; Digit; Digit; Lit "/"; Digit; Digit; Digit; Digit;
   Lit ","; Lit " "; Digit; Digit; Lit ":"; Digit; Digit].

(** The separator between timestamp and content. *)
Definition dash_shape : list charset := [Lit " "; Lit "-"; Lit " "].


(** Every character of the text is a word character, an apostrophe or a
    hyphen. *)
Fixpoint all_word_part (s : string) : bool :=
  match s with
  | EmptyString => true
  | String c s' => is_word_part c && all_word_part s'
  end.

(** The body is one of the two placeholders of the profile. *)
Definition is_placeholder (p : Parser) (body : string) : bool :=
  matches (regex_deleted p) body || matches (regex_media p) body.

(** ** Vocabulary of timestamps and charts *)

(** The value of a decimal digit. *)
Definition digit_value (c : ascii) : Z := (Z.of_N (code c) - 48)%Z.

(** The hour and minute fields [strptime] reads are in range. *)
Definition field_ok (x : directive * Z) : Prop :=
  match fst x with
  | DH => (0 <= snd x < 24)%Z
  | DM => (0 <= snd x < 60)%Z
  | _ => True
  end.

(** A calendar date with a time of day, to the minute. *)
Definition valid_datetime (d : datetime) : Prop :=
  valid_date (year d) (month d) (day d) = true
  /\ (0 <= hour d < 24)%Z /\ (0 <= minute d < 60)%Z
  /\ second d = 0%Z /\ microsecond d = 0%Z.

(** The module's [weekdays] table. *)
Definition weekdays : list string :=
  ["Monday"; "Tuesday"; "Wednesday"; "Thursday"; "Friday"; "Saturday"; "Sunday"].

(** [date.weekday()], Monday being 0, as [msgs['date'].dt.weekday]. *)
Definition weekday (d : datetime) : Z := ((toordinal d + 6) mod 7)%Z.

(** The label [weekdays[x]] of the heat map's rows. *)
Definition day_name (d : datetime) : option string :=
  weekdays !! Z.to_nat (weekday d).

(** One cell of [heat_data]: the number of rows of [msgs] with that
    weekday and hour. *)
Definition heat_count (ms : list Message) (wd h : nat) : nat :=
  length (filter (fun m => Z.to_nat (weekday (date m)) = wd
                           /\ Z.to_nat (hour (date m)) = h) ms).

(** The sum of the cells of the 7 by 24 grid. *)
Definition heat_total (ms : list Message) : nat :=
  foldr Nat.add 0
    (map (fun wd => foldr Nat.add 0 (map (heat_count ms wd) (seq 0 24)))
       (seq 0 7)).

(** [s[:n]] and [s[n:]]. *)
Fixpoint take_chars (n : nat) (s : string) : string :=
  match n, s with
  | S n', String c s' => String c (take_chars n' s')
  | _, _ => EmptyString
  end.

Fixpoint drop_chars (n : nat) (s : string) : string :=
  match n, s with
  | S n', String _ s' => drop_chars n' s'
  | _, _ => s
  end.

(** The [prefix] of the chart titles in [visualize]. *)
Definition title_prefix (chat_name : option string) : string :=
  match chat_name with
  | Some (String _ _ as name) =>
      String dquote EmptyString +:+ take_chars 20 name
        +:+ (match drop_chars 20 name with
             | EmptyString => EmptyString
             | _ => "..."
             end)
        +:+ String dquote ": "
  | _ => EmptyString
  end.

(** A resolved author name has a space only if it has a plus sign. *)
Definition name_ok (a : string) : Prop :=
  contains_char " " a = true -> contains_char "+" a = true.

(** ** Vocabulary of the order of the messages *)

(** The buffers [handle_entry] is called on during a run that starts with
    the buffers [db] and [cb], in order, as pairs of timestamp text and
    content: an entry-start line hands over the entry before it, when
    there is one with a timestamp text that is not empty; any other line
    is added to the content; what is buffered when the input ends is
    handed over last. *)
Fixpoint entries (re : regex) (fp : list string) (db : option string)
    (cb : string) : list (string * string) :=
  match fp with
  | [] => match db with Some g => [(g, cb)] | None => [] end
  | line :: fp' =>
      match rmatch re line with
      | Some gs =>
          match db with
          | Some g => if truthy db then [(g, cb)] else []
          | None => []
          end ++ entries re fp' (Some (group 1 gs)) (group 2 gs)
      | None => entries re fp' db (cb +:+ String newline EmptyString +:+ line)
      end
  end.

(** The call of [handle_text_message] an entry leads to: none for a notice
    or a placeholder. *)
Definition entry_calls (p : Parser) (e : string * string) : list call :=
  match strptime (fst e) (p_date_format p), rmatch regex_message (snd e) with
  | Some d, Some gs =>
      if matches (regex_deleted p) (group 2 gs) then []
      else if matches (regex_media p) (group 2 gs) then []
      else [(d, resolve_author (aliases p) (group 1 gs), group 2 gs)]
  | _, _ => []
  end.

(** The chat messages of an input, in the order of its entries. *)
Definition run_calls (fp : list string) (p : Parser) : list call :=
  flat_map (entry_calls p)
    (entries (regex_date_content p) fp (date_buffer p) (content_buffer p)).

(** The settings [entry_calls] reads. *)
Definition same_config (p q : Parser) : Prop :=
  regex_date_content p = regex_date_content q
  /\ regex_deleted p = regex_deleted q /\ regex_media p = regex_media q
  /\ p_date_format p = p_date_format q /\ aliases p = aliases q.

(** A record stands for a block of consecutive messages of one author: it
    has the author and the timestamp of the first of them, counts them
    and adds up the lengths of their bodies. *)
Definition record_of (m : Message) (blk : list call) : Prop :=
  match blk with
  | [] => False
  | c :: _ => member m = call_author c /\ date m = call_date c
  end
  /\ parts m = length blk /\ body_len m = bodies_len blk
  /\ Forall (fun c => call_author c = member m) blk.

(** * Properties *)

(** ** The flags of [handle_text_message] *)

Section Flags.
Variables (p : Parser) (date0 : datetime) (author body : string).

Lemma flags_single : multipart p = false -> flags p date0 author body = (false, true).
Proof. unfold flags. now intros ->. Qed.

Lemma flags_first : msgs p = [] -> flags p date0 author body = (false, true).
Proof. unfold flags. intros ->. now destruct (multipart p). Qed.

Lemma flags_prev ms prev :
  multipart p = true -> msgs p = ms ++ [prev] ->
  flags p date0 author body =
    (String.eqb (member prev) author
       && total_seconds_lt (sub_us date0 (date prev)) (60 * 3),
     negb (total_seconds_lt (sub_us date0 (date prev)) (60 * 60 * 24)
           || negb (contains_char "?" body))).
Proof.
  unfold flags. intros -> ->. rewrite last_snoc.
  now destruct (_ || _).
Qed.

(** A merge needs a previous message by the same author. *)
Lemma flags_merge_inv ini :
  flags p date0 author body = (true, ini) ->
  exists ms prev,
    msgs p = ms ++ [prev] /\ member prev = author /\ multipart p = true
    /\ (sub_us date0 (date prev) < 180 * 1000000)%Z.
Proof.
  unfold flags. destruct (multipart p); [|discriminate].
  destruct (last (msgs p)) as [prev|] eqn:Hl; [|discriminate].
  apply last_Some in Hl as [ms ->]. intros Hm.
  apply (f_equal fst) in Hm. cbn [fst] in Hm.
  apply andb_true_iff in Hm as [Ha Hd].
  apply String.eqb_eq in Ha. unfold total_seconds_lt in Hd.
  apply Z.ltb_lt in Hd. exists ms, prev. repeat split; [done..|lia].
Qed.
End Flags.

Lemma alter_last {A} (f : A -> A) (ms : list A) (x : A) :
  alter f (pred (length (ms ++ [x]))) (ms ++ [x]) = ms ++ [f x].
Proof.
  rewrite length_app. simpl.
  replace (pred (length ms + 1)) with (length ms + 0) by lia.
  now rewrite alter_app_r.
Qed.

(** The message list after a call, by cases on the flags. *)
Lemma handle_text_message_msgs date0 author body p :
  msgs (handle_text_message date0 author body p) =
    if fst (flags p date0 author body)
    then alter (add_part body) (pred (length (msgs p))) (msgs p)
    else msgs p ++ [Msg author date0 (String.length body) 1
                      (snd (flags p date0 author body))].
Proof.
  unfold handle_text_message.
  now destruct (flags p date0 author body) as [[] ini].
Qed.

Lemma handle_text_message_all_words date0 author body p :
  all_words (handle_text_message date0 author body p) =
    extract_words (common_words p) (all_words p) body.
Proof.
  unfold handle_text_message.
  now destruct (flags p date0 author body) as [[] ini].
Qed.

(** The fields a call leaves alone. *)
Lemma handle_text_message_frame date0 author body p :
  let p' := handle_text_message date0 author body p in
  multipart p' = multipart p /\ common_words p' = common_words p
  /\ member_msg_count p' = member_msg_count p /\ aliases p' = aliases p
  /\ chat_name p' = chat_name p /\ out p' = out p
  /\ date_buffer p' = date_buffer p /\ content_buffer p' = content_buffer p
  /\ regex_date_content p' = regex_date_content p
  /\ regex_deleted p' = regex_deleted p /\ regex_media p' = regex_media p
  /\ regex_created p' = regex_created p /\ regex_rename p' = regex_rename p
  /\ p_date_format p' = p_date_format p.
Proof.
  unfold handle_text_message.
  now destruct (flags p date0 author body) as [[] ini].
Qed.

(** ** Multipart merge *)

Lemma handle_text_message_merge date0 author body p ms prev :
  fst (flags p date0 author body) = true -> msgs p = ms ++ [prev] ->
  msgs (handle_text_message date0 author body p) = ms ++ [add_part body prev].
Proof.
  intros Hf Hm. rewrite handle_text_message_msgs, Hf, Hm. apply alter_last.
Qed.

Lemma handle_text_message_append date0 author body p :
  fst (flags p date0 author body) = false ->
  msgs (handle_text_message date0 author body p) =
    msgs p ++ [Msg author date0 (String.length body) 1
                 (snd (flags p date0 author body))].
Proof. intros Hf. now rewrite handle_text_message_msgs, Hf. Qed.


(** ** The initiator flag *)

(** C5, as the code has it: the rule is evaluated when the multipart
    heuristic is enabled. For a message with a previous record, the flag
    computed for it is true exactly when the difference is at least 86400
    seconds and the body has a question mark; it is the flag of the record
    appended for the message, and a message that is merged instead would
    not have qualified. *)
Theorem initiator_rule (p : Parser) (d : datetime) (a body : string)
    (ms : list Message) (prev : Message) :
  multipart p = true ->
  msgs p = ms ++ [prev] ->
  let diff := sub_us d (date prev) in
  let ini := snd (flags p d a body) in
  (ini = true <-> (86400 * 1000000 <= diff)%Z /\ contains_char "?" body = true)
  /\ (fst (flags p d a body) = false ->
      msgs (handle_text_message d a body p) =
        msgs p ++ [Msg a d (String.length body) 1 ini])
  /\ (fst (flags p d a body) = true -> ini = false)
  /\ (diff = (86400 * 1000000)%Z -> contains_char "?" body = true -> ini = true)
  /\ (diff = (86399 * 1000000)%Z -> ini = false)
  /\ (contains_char "?" body = false -> ini = false).
Proof.
  intros Hmp Hm diff ini.
  assert (Hini : ini = negb (total_seconds_lt diff (60 * 60 * 24)
                             || negb (contains_char "?" body))).
  { unfold ini. now rewrite (flags_prev p d a body ms prev Hmp Hm). }
  assert (Hiff : ini = true <->
                 (86400 * 1000000 <= diff)%Z /\ contains_char "?" body = true).
  { rewrite Hini. unfold total_seconds_lt.
    destruct (Z.ltb_spec diff (60 * 60 * 24 * 1000000));
      destruct (contains_char "?" body); simpl; split;
      try intros [? ?]; try discriminate; try lia; auto; split; auto; lia. }
  split; [exact Hiff|].
  split; [intros Hf; now apply handle_text_message_append|].
  split.
  { intros Hf. destruct (flags p d a body) as [mp i0] eqn:Hfl.
    simpl in Hf. subst mp.
    destruct (flags_merge_inv _ _ _ _ _ Hfl) as (ms' & prev' & Hq & _ & _ & Hlt).
    rewrite Hm in Hq. apply app_inj_tail in Hq as [_ <-].
    destruct ini; [|reflexivity].
    destruct Hiff as [Hiff _]. specialize (Hiff eq_refl). unfold diff in Hiff. lia. }
  split; [intros Hd Hq; apply Hiff; split; [lia|exact Hq]|].
  split.
  - intros Hd. destruct ini; [|reflexivity].
    destruct Hiff as [Hiff _]. specialize (Hiff eq_refl). lia.
  - intros Hq. destruct ini; [|reflexivity].
    destruct Hiff as [Hiff _]. specialize (Hiff eq_refl).
    destruct Hiff as [_ Hc]. congruence.
Qed.

(** ** A parse run as a sequence of calls of [handle_text_message]
    The aggregator fields (the ones [handle_text_message] reads or writes)
    change only through [handle_text_message]; the rest of the parser
    decides which calls are made. *)

Lemma same_agg_refl p : same_agg p p.
Proof. now repeat split. Qed.

Lemma same_agg_trans p q r : same_agg p q -> same_agg q r -> same_agg p r.
Proof. unfold same_agg. intuition congruence. Qed.

Lemma same_agg_flags p q d a b : same_agg p q -> flags p d a b = flags q d a b.
Proof. intros (Hm & _ & _ & Hms & _). unfold flags. now rewrite Hm, Hms. Qed.

Lemma same_agg_handle p q d a b :
  same_agg p q -> same_agg (handle_text_message d a b p) (handle_text_message d a b q).
Proof.
  intros H. pose proof (same_agg_flags p q d a b H) as Hf.
  destruct H as (Hm & Hc & Hn & Hms & Hw).
  unfold handle_text_message. rewrite Hf.
  destruct (flags q d a b) as [[] ini]; unfold same_agg; simpl;
    rewrite ?Hm, ?Hc, ?Hn, ?Hms, ?Hw; now repeat split.
Qed.

Lemma same_agg_ingest_all calls : forall p q,
  same_agg p q -> same_agg (ingest_all calls p) (ingest_all calls q).
Proof.
  induction calls as [|[[d a] b] calls IH]; intros p q H; [exact H|].
  simpl. apply IH, same_agg_handle, H.
Qed.

Lemma ingest_all_app c1 c2 p :
  ingest_all (c1 ++ c2) p = ingest_all c2 (ingest_all c1 p).
Proof. unfold ingest_all. apply fold_left_app. Qed.

Lemma handle_notice_agg p :
  same_agg (handle_notice p) p /\ same_profile (handle_notice p) p
  /\ date_buffer (handle_notice p) = date_buffer p
  /\ aliases (handle_notice p) = aliases p.
Proof.
  unfold handle_notice.
  destruct (rmatch (regex_created p) (content_buffer p)); simpl;
    match goal with |- context [rmatch ?r ?s] => destruct (rmatch r s) end;
    unfold same_agg, same_profile; simpl; now repeat split.
Qed.

Lemma handle_entry_calls p p' :
  handle_entry p = Ok p' ->
  exists calls,
    same_agg p' (ingest_all calls p) /\ same_profile p' p
    /\ date_buffer p' = date_buffer p
    /\ map call_date calls `sublist_of` pending p.
Proof.
  unfold handle_entry, pending.
  destruct (date_buffer p) as [db|] eqn:Hdb; [|discriminate].
  destruct (strptime db (p_date_format p)) as [d|]; [|discriminate].
  destruct (rmatch regex_message (content_buffer p)) as [gs|].
  - set (a := resolve_author _ _). set (b := group 2 gs).
    destruct (matches (regex_deleted p) b);
      [|destruct (matches (regex_media p) b)]; intros [= <-].
    + exists []. repeat split; [done|apply sublist_nil_l].
    + exists []. repeat split; [done|apply sublist_nil_l].
    + exists [(d, a, b)]. simpl.
      destruct (handle_text_message_frame d a b p)
        as (_ & _ & _ & _ & _ & _ & Hd & _ & Hr & _ & _ & _ & _ & Hf).
      repeat split; try done. now rewrite Hd.
  - intros [= <-]. destruct (handle_notice_agg p) as (Ha & Hp & Hd & _).
    exists []. repeat split; try apply Ha; try apply Hp.
    + now rewrite Hd.
    + apply sublist_nil_l.
Qed.

Lemma pending_set_buffers db cb p :
  pending (set_buffers (Some db) cb p) =
    match strptime db (p_date_format p) with Some d => [d] | None => [] end.
Proof. reflexivity. Qed.

Lemma parse_line_calls line p p' :
  parse_line line p = Ok p' ->
  exists calls,
    same_agg p' (ingest_all calls p) /\ same_profile p' p
    /\ (map call_date calls ++ pending p') `sublist_of`
         (pending p ++ entry_dates (regex_date_content p) (p_date_format p) [line]).
Proof.
  unfold parse_line, entry_dates. simpl.
  destruct (rmatch (regex_date_content p) line) as [gs|].
  - destruct (truthy (date_buffer p)).
    + destruct (handle_entry p) as [p1|] eqn:He; [|discriminate].
      simpl. intros [= <-].
      destruct (handle_entry_calls _ _ He) as (calls & Ha & Hp & _ & Hs).
      exists calls. split; [apply Ha|]. split; [apply Hp|].
      rewrite pending_set_buffers. destruct Hp as [_ ->].
      apply sublist_app; [exact Hs|].
      now destruct (strptime (group 1 gs) (p_date_format p)).
    + simpl. intros [= <-]. exists []. split; [now repeat split|].
      split; [done|]. rewrite pending_set_buffers. simpl.
      apply sublist_inserts_l.
      now destruct (strptime (group 1 gs) (p_date_format p)).
  - intros [= <-]. exists []. split; [now repeat split|]. split; [done|].
    simpl. rewrite app_nil_r. reflexivity.
Qed.

Lemma entry_dates_cons re fmt line fp :
  entry_dates re fmt (line :: fp) = entry_dates re fmt [line] ++ entry_dates re fmt fp.
Proof.
  unfold entry_dates. simpl. now destruct (rmatch re line) as [gs|]; [destruct (strptime _ _)|].
Qed.

Lemma parse_loop_calls fp : forall i p p' i',
  parse_loop fp i p = (Ok p', i') ->
  exists calls,
    same_agg p' (ingest_all calls p) /\ same_profile p' p
    /\ (map call_date calls ++ pending p') `sublist_of`
         (pending p ++ entry_dates (regex_date_content p) (p_date_format p) fp).
Proof.
  induction fp as [|line fp IH]; intros i p p' i'; cbn [parse_loop].
  - intros [= <- _]. exists []. split; [apply same_agg_refl|]. split; [done|].
    simpl. now rewrite app_nil_r.
  - destruct (parse_line line p) as [p1|] eqn:Hl; [|discriminate].
    intros Hloop. apply IH in Hloop as (c2 & Ha2 & Hp2 & Hs2).
    apply parse_line_calls in Hl as (c1 & Ha1 & Hp1 & Hs1).
    set (q := if (_ =? 0)%Z then _ else p1) in *.
    assert (Hq : same_agg q p1 /\ same_profile q p1 /\ pending q = pending p1)
      by (unfold q; destruct (_ =? 0)%Z; repeat split).
    destruct Hq as (Hqa & Hqp & Hqd).
    exists (c1 ++ c2). rewrite ingest_all_app. split.
    { eapply same_agg_trans; [exact Ha2|].
      apply same_agg_ingest_all. eapply same_agg_trans; [exact Hqa|exact Ha1]. }
    split; [unfold same_profile in *; intuition congruence|].
    destruct Hqp as [Hrq Hfq], Hp1 as [Hr1 Hf1].
    rewrite Hrq, Hfq, Hr1, Hf1, Hqd in Hs2.
    rewrite entry_dates_cons, map_app, <- app_assoc, (app_assoc (pending p)).
    etransitivity; [apply sublist_app; [reflexivity|exact Hs2]|].
    rewrite app_assoc. apply sublist_app; [exact Hs1|reflexivity].
Qed.

Lemma parse_file_calls fp p p' :
  parse_file fp p = Ok p' ->
  exists calls,
    same_agg p' (ingest_all calls p)
    /\ map call_date calls `sublist_of`
         (pending p ++ entry_dates (regex_date_content p) (p_date_format p) fp).
Proof.
  unfold parse_file.
  destruct (parse_loop fp 0 _) as [r i] eqn:Hloop.
  destruct r as [p1|]; [|discriminate]. simpl.
  destruct (handle_entry p1) as [p2|] eqn:He; [|discriminate]. simpl.
  intros [= <-].
  apply parse_loop_calls in Hloop as (c1 & Ha1 & _ & Hs1).
  apply handle_entry_calls in He as (c2 & Ha2 & _ & _ & Hs2).
  exists (c1 ++ c2). rewrite ingest_all_app. split.
  - apply (same_agg_trans _ p2); [now repeat split|].
    eapply same_agg_trans; [exact Ha2|].
    apply same_agg_ingest_all.
    eapply same_agg_trans; [exact Ha1|].
    apply same_agg_ingest_all. now repeat split.
  - rewrite map_app. etransitivity; [|exact Hs1].
    apply sublist_app; [reflexivity|exact Hs2].
Qed.

(** ** Order of the messages *)

Lemma handle_text_message_dates d a b p :
  map date (msgs (handle_text_message d a b p)) =
    map date (msgs p) ++ (if fst (flags p d a b) then [] else [d]).
Proof.
  destruct (flags p d a b) as [[] ini] eqn:Hf.
  - destruct (flags_merge_inv _ _ _ _ _ Hf) as (ms & prev & Hm & _).
    rewrite (handle_text_message_merge _ _ _ _ ms prev) by (now rewrite Hf || exact Hm).
    rewrite Hm, !map_app. simpl. now rewrite app_nil_r.
  - rewrite handle_text_message_append by now rewrite Hf.
    now rewrite map_app.
Qed.

Lemma ingest_all_dates calls : forall p,
  map date (msgs (ingest_all calls p)) `sublist_of`
    (map date (msgs p) ++ map call_date calls).
Proof.
  induction calls as [|[[d a] b] calls IH]; intros p; simpl.
  - now rewrite app_nil_r.
  - etransitivity; [apply IH|].
    rewrite handle_text_message_dates, <- app_assoc.
    apply sublist_app; [reflexivity|].
    destruct (fst (flags p d a b)); simpl.
    + now apply sublist_cons.
    + reflexivity.
Qed.

Lemma StronglySorted_sublist {A} (R : A -> A -> Prop) (l k : list A) :
  l `sublist_of` k -> StronglySorted R k -> StronglySorted R l.
Proof.
  induction 1 as [|x l k Hs IH|x l k Hs IH]; intros Hk.
  - constructor.
  - apply StronglySorted_inv in Hk as [Hk Hx]. constructor; [now apply IH|].
    rewrite Forall_forall in Hx |- *. intros y Hy.
    apply Hx. eapply elem_of_sublist; [exact Hy|exact Hs].
  - apply StronglySorted_inv in Hk as [Hk _]. now apply IH.
Qed.

Lemma same_config_refl p : same_config p p.
Proof. now repeat split. Qed.

Lemma same_config_trans p q r : same_config p q -> same_config q r -> same_config p r.
Proof. unfold same_config. intuition congruence. Qed.

Lemma entry_calls_config p q e : same_config p q -> entry_calls p e = entry_calls q e.
Proof.
  intros (_ & Hd & Hm & Hf & Ha). unfold entry_calls. now rewrite Hd, Hm, Hf, Ha.
Qed.

Lemma handle_notice_config p :
  same_config (handle_notice p) p
  /\ content_buffer (handle_notice p) = content_buffer p.
Proof.
  unfold handle_notice.
  destruct (rmatch (regex_created p) (content_buffer p)); simpl;
    match goal with |- context [rmatch ?r ?s] => destruct (rmatch r s) end;
    unfold same_config; simpl; now repeat split.
Qed.

(** What [handle_entry] does to the message list is the call its buffers
    lead to. *)
Lemma handle_entry_entry_calls p q :
  handle_entry p = Ok q ->
  exists g,
    date_buffer p = Some g
    /\ same_agg q (ingest_all (entry_calls p (g, content_buffer p)) p)
    /\ same_config q p.
Proof.
  unfold handle_entry, entry_calls.
  destruct (date_buffer p) as [g|]; [|discriminate].
  intros He. exists g. split; [reflexivity|]. cbn [fst snd]. revert He.
  destruct (strptime g (p_date_format p)) as [d|]; [|discriminate].
  destruct (rmatch regex_message (content_buffer p)) as [gs|].
  - destruct (matches (regex_deleted p) _);
      [|destruct (matches (regex_media p) _)]; intros [= <-];
      try (split; [apply same_agg_refl|apply same_config_refl]).
    split; [apply same_agg_refl|].
    match goal with |- context [handle_text_message ?d ?a ?b p] =>
      destruct (handle_text_message_frame d a b p)
        as (_ & _ & _ & Hal & _ & _ & _ & _ & Hr & Hdel & Hmed & _ & _ & Hf) end.
    now repeat split.
  - intros [= <-]. destruct (handle_notice_agg p) as (Ha & _).
    split; [exact Ha|apply handle_notice_config].
Qed.

(** A run ingests the chat messages of the entries of its input, in the
    order of the entries. *)
Lemma parse_loop_run_calls fp : forall i p r j q,
  parse_loop fp i p = (r, j) ->
  (p' <- r ;; handle_entry p') = Ok q ->
  same_agg q (ingest_all (run_calls fp p) p).
Proof.
  unfold run_calls.
  induction fp as [|line fp IH]; intros i p r j q; cbn [parse_loop entries].
  - intros [= <- _]. cbn [bind]. intros He.
    apply handle_entry_entry_calls in He as (g & -> & Ha & _).
    cbn [flat_map]. now rewrite app_nil_r.
  - unfold parse_line.
    destruct (rmatch (regex_date_content p) line) as [gs|].
    + destruct (date_buffer p) as [g|] eqn:Hdb.
      * destruct (truthy (Some g)) eqn:Ht.
        -- destruct (handle_entry p) as [p0|c p0] eqn:He;
             cbn [bind]; [|intros [= <- _]; cbn [bind]; discriminate].
           intros Hloop Hq.
           apply handle_entry_entry_calls in He as (g' & Hg' & Ha & Hc).
           rewrite Hdb in Hg'. injection Hg' as <-.
           eapply IH in Hloop; [|exact Hq].
           set (p1 := if (_ =? 0)%Z then _ else _) in *.
           assert (H1 : same_agg p1 p0 /\ same_config p1 p0
                        /\ date_buffer p1 = Some (group 1 gs)
                        /\ content_buffer p1 = group 2 gs)
             by (unfold p1; destruct (_ =? 0)%Z; now repeat split).
           destruct H1 as (Ha1 & Hc1 & Hd1 & Hb1).
           assert (Hcp : same_config p1 p) by (eapply same_config_trans; eassumption).
           rewrite Hd1, Hb1 in Hloop.
           destruct Hcp as (Hre & Hrest). rewrite Hre in Hloop.
           rewrite flat_map_app, ingest_all_app. cbn [flat_map].
           rewrite app_nil_r.
           rewrite (flat_map_ext _ (entry_calls p)) in Hloop
             by (intros e; apply entry_calls_config; now split).
           eapply same_agg_trans; [exact Hloop|].
           apply same_agg_ingest_all.
           eapply same_agg_trans; [exact Ha1|exact Ha].
        -- cbn [bind]. intros Hloop Hq.
           eapply IH in Hloop; [|exact Hq].
           set (p1 := if (_ =? 0)%Z then _ else _) in *.
           assert (H1 : same_agg p1 p /\ same_config p1 p
                        /\ date_buffer p1 = Some (group 1 gs)
                        /\ content_buffer p1 = group 2 gs)
             by (unfold p1; destruct (_ =? 0)%Z; now repeat split).
           destruct H1 as (Ha1 & Hc1 & Hd1 & Hb1).
           rewrite Hd1, Hb1 in Hloop.
           destruct Hc1 as (Hre & Hrest). rewrite Hre in Hloop.
           cbn [app].
           rewrite (flat_map_ext _ (entry_calls p)) in Hloop
             by (intros e; apply entry_calls_config; now split).
           eapply same_agg_trans; [exact Hloop|].
           now apply same_agg_ingest_all.
      * cbn [truthy bind]. intros Hloop Hq.
        eapply IH in Hloop; [|exact Hq].
        set (p1 := if (_ =? 0)%Z then _ else _) in *.
        assert (H1 : same_agg p1 p /\ same_config p1 p
                     /\ date_buffer p1 = Some (group 1 gs)
                     /\ content_buffer p1 = group 2 gs)
          by (unfold p1; destruct (_ =? 0)%Z; now repeat split).
        destruct H1 as (Ha1 & Hc1 & Hd1 & Hb1).
        rewrite Hd1, Hb1 in Hloop.
        destruct Hc1 as (Hre & Hrest). rewrite Hre in Hloop.
        cbn [app].
        rewrite (flat_map_ext _ (entry_calls p)) in Hloop
          by (intros e; apply entry_calls_config; now split).
        eapply same_agg_trans; [exact Hloop|].
        now apply same_agg_ingest_all.
    + intros Hloop Hq.
      eapply IH in Hloop; [|exact Hq].
      set (p1 := if (_ =? 0)%Z then _ else _) in *.
      assert (H1 : same_agg p1 p /\ same_config p1 p
                   /\ date_buffer p1 = date_buffer p
                   /\ content_buffer p1 =
                        content_buffer p +:+ String newline EmptyString +:+ line)
        by (unfold p1; destruct (_ =? 0)%Z; now repeat split).
      destruct H1 as (Ha1 & Hc1 & Hd1 & Hb1).
      rewrite Hd1, Hb1 in Hloop.
      destruct Hc1 as (Hre & Hrest). rewrite Hre in Hloop.
      rewrite (flat_map_ext _ (entry_calls p)) in Hloop
        by (intros e; apply entry_calls_config; now split).
      eapply same_agg_trans; [exact Hloop|].
      now apply same_agg_ingest_all.
Qed.

Lemma bodies_len_snoc blk c :
  bodies_len (blk ++ [c]) = bodies_len blk + String.length (call_body c).
Proof.
  unfold bodies_len. induction blk as [|x blk IH]; simpl; [lia|].
  rewrite IH. lia.
Qed.

Lemma record_of_fresh d a b ini :
  record_of (Msg a d (String.length b) 1 ini) [(d, a, b)].
Proof.
  unfold record_of, bodies_len. simpl. repeat split; [lia|].
  now apply Forall_singleton.
Qed.

Lemma record_of_add_part prev blk d b :
  record_of prev blk -> record_of (add_part b prev) (blk ++ [(d, member prev, b)]).
Proof.
  intros (Hhead & Hp & Hb & Hall). unfold record_of, add_part.
  cbn [member date parts body_len].
  rewrite length_app, bodies_len_snoc. cbn [length call_body snd].
  rewrite Hp, Hb. split; [|repeat split].
  - destruct blk as [|c blk]; [destruct Hhead|exact Hhead].
  - apply Forall_app. split; [exact Hall|]. now apply Forall_singleton.
Qed.

(** The records of the message list are consecutive blocks of the calls,
    in the order of the calls. *)
Lemma ingest_all_blocks calls : forall p blocks0,
  Forall2 record_of (msgs p) blocks0 ->
  exists blocks,
    concat blocks = concat blocks0 ++ calls
    /\ Forall2 record_of (msgs (ingest_all calls p)) blocks.
Proof.
  induction calls as [|[[d a] b] calls IH]; intros p blocks0 H0.
  - exists blocks0. now rewrite app_nil_r.
  - change (ingest_all ((d, a, b) :: calls) p)
      with (ingest_all calls (handle_text_message d a b p)).
    destruct (fst (flags p d a b)) eqn:Hf.
    + destruct (flags p d a b) as [mp ini] eqn:Hfl. cbn [fst] in Hf. subst mp.
      destruct (flags_merge_inv _ _ _ _ _ Hfl) as (ms & prev & Hm & Ha & _).
      rewrite Hm in H0.
      apply Forall2_app_inv_l in H0 as (bs & bl & Hbs & Hbl & ->).
      apply Forall2_cons_inv_l in Hbl as (blk & bl' & Hblk & Hnil & ->).
      apply Forall2_nil_inv_l in Hnil as ->.
      destruct (IH (handle_text_message d a b p) (bs ++ [blk ++ [(d, a, b)]]))
        as (blocks & Hc & Hr).
      { rewrite (handle_text_message_merge _ _ _ _ ms prev)
          by (now rewrite Hfl || exact Hm).
        apply Forall2_app; [exact Hbs|].
        constructor; [|constructor].
        rewrite <- Ha. now apply record_of_add_part. }
      exists blocks. split; [|exact Hr].
      rewrite Hc, !concat_app. simpl. rewrite !app_nil_r, <- !app_assoc.
      reflexivity.
    + destruct (IH (handle_text_message d a b p) (blocks0 ++ [[(d, a, b)]]))
        as (blocks & Hc & Hr).
      { rewrite handle_text_message_append by exact Hf.
        apply Forall2_app; [exact H0|].
        constructor; [apply record_of_fresh|constructor]. }
      exists blocks. split; [|exact Hr].
      rewrite Hc, concat_app. simpl. rewrite <- app_assoc. reflexivity.
Qed.

(** The first component of an entry of a run that starts without a
    buffered entry is the timestamp text of an entry-start line. *)
Lemma entries_dates re fmt fp : forall db cb,
  omap (fun e => strptime (fst e) fmt) (entries re fp db cb) `sublist_of`
    (match db with
     | Some g => match strptime g fmt with Some d => [d] | None => [] end
     | None => []
     end ++ entry_dates re fmt fp).
Proof.
  induction fp as [|line fp IH]; intros db cb; cbn [entries].
  - unfold entry_dates. simpl. rewrite app_nil_r.
    destruct db as [g|]; simpl; [|reflexivity].
    now destruct (strptime g fmt).
  - rewrite entry_dates_cons. unfold entry_dates at 1. cbn [omap list_omap].
    destruct (rmatch re line) as [gs|].
    + rewrite omap_app. apply sublist_app.
      * destruct db as [g|]; [|reflexivity].
        destruct (truthy (Some g)); simpl.
        -- now destruct (strptime g fmt).
        -- apply sublist_nil_l.
      * etransitivity; [apply IH|]. apply sublist_app; [|reflexivity].
        now destruct (strptime (group 1 gs) fmt).
    + simpl. apply IH.
Qed.

Lemma entry_calls_dates p es :
  map call_date (flat_map (entry_calls p) es) `sublist_of`
    omap (fun e => strptime (fst e) (p_date_format p)) es.
Proof.
  induction es as [|e es IH]; [reflexivity|].
  cbn [flat_map omap list_omap]. rewrite map_app.
  unfold entry_calls at 1.
  destruct (strptime (fst e) (p_date_format p)) as [d|].
  - destruct (rmatch regex_message (snd e)) as [gs|].
    + destruct (matches (regex_deleted p) _); [now apply sublist_cons|].
      destruct (matches (regex_media p) _); [now apply sublist_cons|].
      simpl. now apply sublist_skip.
    + now apply sublist_cons.
  - exact IH.
Qed.

(** C7, as the code has it: the messages keep the order of the entries of
    the input. The message list is what ingesting the chat messages of the
    entries gives, taken in input order: its records are, in that order,
    consecutive blocks of these messages, each record with the author and
    timestamp of the first message of its block. Their timestamps are a
    subsequence of the timestamps of the entry-start lines, so they are
    non-decreasing whenever those of the input are; the parser neither
    sorts nor checks. *)
Theorem messages_in_entry_order (language : Language)
    (al : option (gmap string string)) (mp : bool) (cw fp : list string)
    (p : Parser) :
  parse_file fp (Parser_init language al mp cw) = Ok p ->
  let p0 := Parser_init language al mp cw in
  let ds := entry_dates (date_content language) (date_format language) fp in
  msgs p = msgs (ingest_all (run_calls fp p0) p0)
  /\ (exists blocks,
        concat blocks = run_calls fp p0 /\ Forall2 record_of (msgs p) blocks)
  /\ map call_date (run_calls fp p0) `sublist_of` ds
  /\ map date (msgs p) `sublist_of` ds
  /\ (Sorted dt_le ds -> Sorted dt_le (map date (msgs p))).
Proof.
  intros Hrun p0 ds.
  assert (Hcalls : msgs p = msgs (ingest_all (run_calls fp p0) p0)).
  { revert Hrun. unfold parse_file.
    destruct (parse_loop fp 0 _) as [r i] eqn:Hloop.
    destruct (p' <- r ;; handle_entry p') as [q|c q] eqn:Hq.
    - destruct r as [p1|]; [|discriminate]. cbn [bind] in Hq |- *.
      rewrite Hq. cbn [bind]. intros [= <-].
      apply (parse_loop_run_calls _ _ _ _ _ _ Hloop) in Hq
        as (_ & _ & _ & Hm & _).
      cbn [msgs print]. rewrite Hm.
      change (run_calls fp (print _ _)) with (run_calls fp p0).
      assert (Ha : same_agg (print (Stdout [VStr "Parsing file..."]) p0) p0)
        by now repeat split.
      apply (same_agg_ingest_all (run_calls fp p0)) in Ha
        as (_ & _ & _ & Hm' & _).
      exact Hm'.
    - destruct r as [p1|]; [|discriminate]. cbn [bind] in Hq |- *.
      rewrite Hq. discriminate. }
  assert (Hsub : map date (msgs p) `sublist_of` ds).
  { apply parse_file_calls in Hrun as (calls & (_ & _ & _ & Hm & _) & Hs).
    rewrite Hm. etransitivity; [apply ingest_all_dates|]. exact Hs. }
  split; [exact Hcalls|]. split; [|split; [|split; [exact Hsub|]]].
  - destruct (ingest_all_blocks (run_calls fp p0) p0 []) as (blocks & Hc & Hr);
      [constructor|].
    exists blocks. split; [exact Hc|]. rewrite Hcalls. exact Hr.
  - unfold run_calls. etransitivity; [apply entry_calls_dates|].
    apply (entries_dates _ _ fp None EmptyString).
  - intros Hsorted. apply StronglySorted_Sorted.
    eapply StronglySorted_sublist; [exact Hsub|].
    apply Sorted_StronglySorted; [|exact Hsorted].
    intros a b c. unfold dt_le. lia.
Qed.

(** ** The multipart toggle switched off *)

Lemma ingest_all_single calls : forall p,
  multipart p = false ->
  msgs (ingest_all calls p) = msgs p ++ map fresh_record calls.
Proof.
  induction calls as [|[[d a] b] calls IH]; intros p Hmp; simpl.
  - now rewrite app_nil_r.
  - rewrite IH.
    + rewrite handle_text_message_append by now rewrite flags_single.
      now rewrite flags_single, <- app_assoc.
    + destruct (handle_text_message_frame d a b p) as [-> _]. exact Hmp.
Qed.

(** C10. With [multipart=False] every message is recorded as a record of
    its own with the initiator flag set, whatever the time since the
    previous message and whatever its body: the rule that clears the flag
    sits under the test of [self.multipart]. *)
Theorem single_part_all_initiators (p : Parser) :
  multipart p = false ->
  (forall d a b,
     msgs (handle_text_message d a b p) =
       msgs p ++ [Msg a d (String.length b) 1 true])
  /\ (forall fp p',
        parse_file fp p = Ok p' ->
        exists new,
          msgs p' = msgs p ++ new
          /\ Forall (fun m => initiator m = true /\ parts m = 1) new).
Proof.
  intros Hmp. split.
  - intros d a b. rewrite handle_text_message_append by now rewrite flags_single.
    now rewrite flags_single.
  - intros fp p' Hrun.
    apply parse_file_calls in Hrun as (calls & (_ & _ & _ & Hm & _) & _).
    exists (map fresh_record calls). split.
    + rewrite Hm. now apply ingest_all_single.
    + apply Forall_forall. intros m Hin.
      apply list_elem_of_fmap in Hin as ([[d a] b] & -> & _). now split.
Qed.

(** ** Per-member counts *)

Lemma sum_parts_app (l k : list Message) :
  foldr Nat.add 0 (map parts (l ++ k)) =
    foldr Nat.add 0 (map parts l) + foldr Nat.add 0 (map parts k).
Proof. induction l as [|m l IH]; simpl; [reflexivity|]. rewrite IH. lia. Qed.

Lemma parts_per_member_snoc ms m a :
  parts_per_member (ms ++ [m]) a =
    parts_per_member ms a + (if decide (member m = a) then parts m else 0).
Proof.
  unfold parts_per_member. rewrite filter_app, sum_parts_app.
  rewrite filter_cons, filter_nil. destruct (decide (member m = a)); simpl; lia.
Qed.

Lemma count_per_member_snoc ms m a :
  count_per_member (ms ++ [m]) a =
    count_per_member ms a + (if decide (member m = a) then 1 else 0).
Proof.
  unfold count_per_member. rewrite filter_app, length_app.
  rewrite filter_cons, filter_nil. now destruct (decide (member m = a)).
Qed.

Lemma calls_by_cons a d author b calls :
  calls_by a ((d, author, b) :: calls) =
    (if decide (author = a) then 1 else 0) + calls_by a calls.
Proof.
  unfold calls_by. rewrite filter_cons. simpl.
  now destruct (decide (author = a)).
Qed.

Lemma handle_text_message_counts d author b p a :
  let p' := handle_text_message d author b p in
  parts_per_member (msgs p') a =
    parts_per_member (msgs p) a + (if decide (author = a) then 1 else 0)
  /\ count_per_member (msgs p') a <=
       count_per_member (msgs p) a + (if decide (author = a) then 1 else 0).
Proof.
  simpl. destruct (flags p d author b) as [[] ini] eqn:Hf.
  - destruct (flags_merge_inv _ _ _ _ _ Hf) as (ms & prev & Hm & Ha & _).
    rewrite (handle_text_message_merge _ _ _ _ ms prev) by (now rewrite Hf || exact Hm).
    rewrite Hm, !parts_per_member_snoc, !count_per_member_snoc. simpl.
    rewrite Ha. destruct (decide (author = a)); lia.
  - rewrite handle_text_message_append by now rewrite Hf.
    rewrite parts_per_member_snoc, count_per_member_snoc. simpl.
    destruct (decide (author = a)); lia.
Qed.

Lemma ingest_all_member_msg_count calls : forall p,
  member_msg_count (ingest_all calls p) = member_msg_count p.
Proof.
  induction calls as [|[[d a] b] calls IH]; intros p; simpl; [reflexivity|].
  rewrite IH. now destruct (handle_text_message_frame d a b p) as (_ & _ & -> & _).
Qed.

(** C1, as the code has it: nothing increments [member_msg_count]; it is
    after any sequence of messages, and after a whole parse run, what it
    was before (empty, for a new parser). The number of messages of an
    author is kept in the message list instead: it is the sum of the part
    counts of the author's records, while the count the charts use is the
    number of the author's records, which merging makes smaller. *)
Theorem member_counts (p : Parser) (calls : list call) (a : string) :
  let p' := ingest_all calls p in
  msg_count p' a = msg_count p a
  /\ parts_per_member (msgs p') a = parts_per_member (msgs p) a + calls_by a calls
  /\ count_per_member (msgs p') a <= count_per_member (msgs p) a + calls_by a calls
  /\ (forall fp q,
        parse_file fp p = Ok q ->
        member_msg_count q = member_msg_count p
        /\ exists run, msgs q = msgs (ingest_all run p)).
Proof.
  simpl. split; [|split; [|split]].
  - unfold msg_count. now rewrite ingest_all_member_msg_count.
  - revert p. induction calls as [|[[d author] b] calls IH]; intros p; simpl.
    + unfold calls_by. simpl. lia.
    + rewrite IH, calls_by_cons.
      destruct (handle_text_message_counts d author b p a) as [-> _]. lia.
  - revert p. induction calls as [|[[d author] b] calls IH]; intros p; simpl.
    + lia.
    + rewrite calls_by_cons. etransitivity; [apply IH|].
      destruct (handle_text_message_counts d author b p a) as [_ Hc]. lia.
  - intros fp q Hrun.
    apply parse_file_calls in Hrun as (cs & (_ & _ & Hn & Hm & _) & _).
    split; [now rewrite Hn, ingest_all_member_msg_count|].
    now exists cs.
Qed.

(** ** The word corpus *)

Lemma append_assoc (a b c : string) : (a +:+ b) +:+ c = a +:+ (b +:+ c).
Proof.
  induction a as [|x a IH]; [reflexivity|].
  change (String x ((a +:+ b) +:+ c) = String x (a +:+ (b +:+ c))).
  now rewrite IH.
Qed.

Lemma append_nil_r (a : string) : a +:+ EmptyString = a.
Proof.
  induction a as [|x a IH]; [reflexivity|].
  change (String x (a +:+ EmptyString) = String x a). now rewrite IH.
Qed.

Lemma existsb_eqb_elem_of (w : string) (cw : list string) :
  existsb (String.eqb w) cw = true <-> w ∈ cw.
Proof.
  rewrite existsb_exists, list_elem_of_In. split.
  - intros (x & Hin & He). apply String.eqb_eq in He. now subst.
  - intros Hin. exists w. split; [exact Hin|apply String.eqb_refl].
Qed.

Lemma fold_add_word cw ws : forall acc,
  fold_left (add_word cw) ws acc =
    acc +:+ render (filter (fun w => w ∉ cw) (map lower ws)).
Proof.
  induction ws as [|w ws IH]; intros acc; simpl.
  - now rewrite append_nil_r.
  - rewrite IH, filter_cons. unfold add_word.
    destruct (existsb (String.eqb (lower w)) cw) eqn:He.
    + apply existsb_eqb_elem_of in He.
      destruct (decide (lower w ∉ cw)) as [Hn|_]; [contradiction|reflexivity].
    + destruct (decide (lower w ∉ cw)) as [_|Hn].
      * simpl. now rewrite !append_assoc.
      * exfalso. apply Hn. intros Hin.
        apply existsb_eqb_elem_of in Hin. congruence.
Qed.

(** C9. Every call of [handle_text_message], merged or not, appends to the
    corpus the tokens of the body that survive the filter, each after a
    space, and then the sentence terminator; what was in the corpus stays.
    With [the] in the common-word list, the body [the Quick fox] gives the
    tokens [quick] and [fox] (those of the two that are not listed
    themselves). *)
Theorem corpus_rendering (p : Parser) (d : datetime) (a body : string) :
  let p' := handle_text_message d a body p in
  let cw := common_words p in
  all_words p' = all_words p +:+ render (kept_words cw body) +:+ ". "
  /\ (body = "the Quick fox" -> "the" ∈ cw ->
      kept_words cw body = filter (fun w => w ∉ cw) ["quick"; "fox"]
      /\ ("quick" ∉ cw -> "fox" ∉ cw ->
          kept_words cw body = ["quick"; "fox"]
          /\ all_words p' = all_words p +:+ " quick fox. ")).
Proof.
  simpl.
  assert (Hw : all_words (handle_text_message d a body p) =
               all_words p +:+ render (kept_words (common_words p) body) +:+ ". ").
  { rewrite handle_text_message_all_words. unfold extract_words, kept_words.
    now rewrite fold_add_word, append_assoc. }
  split; [exact Hw|].
  intros -> Hthe.
  assert (Hk : kept_words (common_words p) "the Quick fox" =
               filter (fun w => w ∉ common_words p) ["quick"; "fox"]).
  { unfold kept_words.
    change (map lower (regex_words_finditer "the Quick fox"))
      with ["the"; "quick"; "fox"].
    rewrite filter_cons.
    destruct (decide ("the" ∉ common_words p)); [contradiction|reflexivity]. }
  split; [exact Hk|].
  intros Hq Hf.
  assert (Hk2 : kept_words (common_words p) "the Quick fox" = ["quick"; "fox"]).
  { rewrite Hk, !filter_cons, filter_nil.
    destruct (decide ("quick" ∉ common_words p)); [|contradiction].
    destruct (decide ("fox" ∉ common_words p)); [reflexivity|contradiction]. }
  split; [exact Hk2|].
  rewrite Hw, Hk2. reflexivity.
Qed.

(** ** Alias resolution *)

Lemma split_first_token (a : string) :
  contains_char " " a = true ->
  contains_char " " (split_first " " a) = false
  /\ exists rest, a = split_first " " a +:+ " " +:+ rest.
Proof.
  induction a as [|c a IH]; cbn [contains_char split_first]; [discriminate|].
  rewrite (Ascii.eqb_sym " " c).
  destruct (Ascii.eqb_spec c " ") as [->|Hne].
  - intros _. split; [reflexivity|]. now exists a.
  - rewrite orb_false_l. intros Ha. destruct (IH Ha) as [Hn [rest Hr]].
    cbn [contains_char]. rewrite (Ascii.eqb_sym " " c).
    destruct (Ascii.eqb_spec c " "); [contradiction|]. rewrite orb_false_l.
    split; [exact Hn|]. exists rest.
    change (String c a = String c (split_first " " a +:+ " " +:+ rest)).
    now rewrite <- Hr.
Qed.

(** C2, as the code has it: an alias entry replaces the raw identifier, and
    the first-token rule is then applied to whatever name results, aliased
    or not: a name with a space and without a plus sign is cut down to the
    text before its first space, any other name is kept. An aliased name
    is therefore used verbatim exactly when the rule leaves it alone. *)
Theorem resolve_author_rule (al : gmap string string) (raw : string) :
  let a := default raw (al !! raw) in
  (contains_char " " a = true -> contains_char "+" a = false ->
   resolve_author al raw = split_first " " a
   /\ contains_char " " (resolve_author al raw) = false
   /\ exists rest, a = resolve_author al raw +:+ " " +:+ rest)
  /\ (contains_char " " a = false \/ contains_char "+" a = true ->
      resolve_author al raw = a).
Proof.
  simpl. unfold resolve_author.
  destruct (al !! raw) as [v|]; simpl; (split; [intros Hs Hp|intros [Hs|Hp]]);
    rewrite ?Hs, ?Hp; simpl; try reflexivity;
    try (now destruct (contains_char " " _));
    (split; [reflexivity|now apply split_first_token]).
Qed.

(** ** No entry at all *)

Lemma parse_loop_no_entry fp : forall i p,
  date_buffer p = None ->
  Forall (fun line => rmatch (regex_date_content p) line = None) fp ->
  exists p' i',
    parse_loop fp i p = (Ok p', i') /\ date_buffer p' = None
    /\ msgs p' = msgs p /\ chat_name p' = chat_name p.
Proof.
  induction fp as [|line fp IH]; intros i p Hd Hall; cbn [parse_loop].
  - now exists p, i.
  - apply Forall_cons in Hall as [Hl Hall].
    unfold parse_line. rewrite Hl.
    match goal with |- context [parse_loop fp ?j ?q] =>
      destruct (IH j q) as (p' & i' & Hloop & Hd' & Hm & Hc) end.
    + now destruct (_ =? 0)%Z.
    + now destruct (_ =? 0)%Z.
    + exists p', i'. rewrite Hloop. repeat split; [exact Hd'|..].
      * rewrite Hm. now destruct (_ =? 0)%Z.
      * rewrite Hc. now destruct (_ =? 0)%Z.
Qed.

(** C8. When no line of the input matches the entry-start pattern, the
    finalization at the end of the input finds no entry: the run prints
    the diagnostic on the error stream and exits with status 1; no message
    was recorded. The same happens whenever [handle_entry] runs before any
    entry-start line was seen. *)
Theorem no_entry_is_fatal (p : Parser) (fp : list string) :
  date_buffer p = None ->
  Forall (fun line => rmatch (regex_date_content p) line = None) fp ->
  handle_entry p = Exit 1 (print no_entry_message p)
  /\ exists p',
       parse_file fp p = Exit 1 p'
       /\ last (out p') = Some no_entry_message
       /\ msgs p' = msgs p.
Proof.
  intros Hd Hall. split.
  - unfold handle_entry. now rewrite Hd.
  - unfold parse_file.
    destruct (parse_loop_no_entry fp 0%Z (print (Stdout [VStr "Parsing file..."]) p))
      as (p1 & i1 & Hloop & Hd1 & Hm1 & _); [exact Hd|exact Hall|].
    rewrite Hloop. simpl. unfold handle_entry. rewrite Hd1. simpl.
    eexists. split; [reflexivity|]. simpl. split; [apply last_snoc|exact Hm1].
Qed.

(** ** The chat title *)

(** A notice is handled by the assignments of [notice_titles], made in
    order. *)
Lemma handle_notice_titles p :
  handle_notice p = fold_left (fun q kt => assign_title kt q) (notice_titles p) p.
Proof.
  unfold handle_notice, notice_titles.
  destruct (rmatch (regex_created p) (content_buffer p)) as [g1|];
    simpl (regex_rename _); simpl (content_buffer _);
    now destruct (rmatch (regex_rename p) (content_buffer p)) as [g2|].
Qed.

Lemma handle_notice_chat_name p :
  chat_name (handle_notice p) =
    match last (notice_titles p) with
    | Some kt => Some (snd kt)
    | None => chat_name p
    end.
Proof.
  unfold handle_notice, notice_titles.
  destruct (rmatch (regex_created p) (content_buffer p)) as [g1|];
    simpl (regex_rename _); simpl (content_buffer _);
    now destruct (rmatch (regex_rename p) (content_buffer p)) as [g2|].
Qed.

(** The loop over an input is the loop over a prefix of it followed by the
    loop over the rest: the state after [k] iterations is the state the
    loop over the first [k] lines ends in. *)
Lemma parse_loop_app l1 : forall l2 i p,
  parse_loop (l1 ++ l2) i p =
    match parse_loop l1 i p with
    | (Ok q, j) => parse_loop l2 j q
    | (Exit c q, j) => (Exit c q, j)
    end.
Proof.
  induction l1 as [|line l1 IH]; intros l2 i p; cbn [app parse_loop];
    [reflexivity|].
  destruct (parse_line line p) as [q|c q]; [apply IH|reflexivity].
Qed.

Lemma length_renames n : length (renames n) = n.
Proof.
  induction n as [|n IH]; [reflexivity|].
  cbn [renames]. rewrite length_app, IH. simpl. lia.
Qed.

Lemma take_renames n : forall k, k <= n -> take k (renames n) = renames k.
Proof.
  induction n as [|n IH]; intros k Hk.
  - now replace k with 0 by lia.
  - cbn [renames]. destruct (decide (k = S n)) as [->|Hne].
    + rewrite take_ge; [reflexivity|].
      rewrite length_app, length_renames. simpl. lia.
    + rewrite take_app_le by (rewrite length_renames; lia).
      apply IH. lia.
Qed.

(** The notice on line [n] of the family sets the title [nth_title n]. *)
Lemma nth_notice_handled n t p :
  reading_notices t (nth_content n) p ->
  handle_entry p = Ok (handle_notice p)
  /\ chat_name (handle_notice p) = Some (nth_title n)
  /\ same_profile (handle_notice p) p
  /\ regex_created (handle_notice p) = created en
  /\ regex_rename (handle_notice p) = rename en.
Proof.
  intros (Hre & Hc & Hr & Hf & (db & Hdb & Ht & [d Hd]) & Hcb & Hn).
  assert (Hmsg : rmatch regex_message (nth_content n) = None)
    by (destruct n as [|k]; [|cbn [nth_content]; destruct (Nat.even k)];
        vm_compute; reflexivity).
  split; [unfold handle_entry; now rewrite Hdb, Hf, Hd, Hcb, Hmsg|].
  split.
  - rewrite handle_notice_chat_name. unfold notice_titles.
    rewrite Hc, Hr, Hcb.
    destruct n as [|k]; [|cbn [nth_content nth_title]; destruct (Nat.even k)];
      vm_compute; reflexivity.
  - destruct (handle_notice_agg p) as (_ & Hp & _).
    split; [exact Hp|].
    unfold handle_notice.
    destruct (rmatch (regex_created p) _); simpl;
      match goal with |- context [rmatch ?r ?s] => destruct (rmatch r s) end;
      now split.
Qed.

Lemma rename_nth_read n : forall p,
  reading_notices (title_at (S n)) (nth_content n) p ->
  exists p',
    parse_line (rename_nth n) p = Ok p'
    /\ reading_notices (title_at (S (S n))) (nth_content (S n)) p'.
Proof.
  intros p Hp.
  destruct (nth_notice_handled n _ p Hp) as (He & Hn & (Hre' & Hf') & Hc' & Hr').
  destruct Hp as (Hre & Hc & Hr & Hf & (db & Hdb & Ht & Hd) & Hcb & _).
  unfold parse_line. rewrite Hre.
  assert (Hline : exists g,
             rmatch (date_content en) (rename_nth n) = Some [g; nth_content (S n)]
             /\ truthy (Some g) = true /\ is_Some (strptime g (date_format en))).
  { unfold rename_nth. cbn [nth_content]. destruct (Nat.even n).
    - exists "01/01/2020, 10:01". split; [vm_compute; reflexivity|].
      split; [reflexivity|]. eexists. vm_compute. reflexivity.
    - exists "01/01/2020, 10:02". split; [vm_compute; reflexivity|].
      split; [reflexivity|]. eexists. vm_compute. reflexivity. }
  destruct Hline as (g & -> & Hg & Hgd).
  rewrite Hdb, Ht, He. cbn [bind]. eexists. split; [reflexivity|].
  unfold reading_notices.
  cbn [regex_date_content regex_created regex_rename p_date_format date_buffer
       content_buffer chat_name set_buffers group nth Nat.sub].
  rewrite Hre', Hf', Hc', Hr', Hre, Hf.
  repeat split; try assumption; try reflexivity.
  exists g. now repeat split.
Qed.

(** The state after the creation notice and [n] rename notices have been
    read. *)
Lemma renames_read (al : option (gmap string string)) (mp : bool)
    (cw : list string) (n : nat) :
  exists p' i',
    parse_loop (created_line :: renames n) 0
      (print (Stdout [VStr "Parsing file..."]) (Parser_init en al mp cw))
      = (Ok p', i')
    /\ reading_notices (title_at (S n)) (nth_content n) p'.
Proof.
  induction n as [|n (p1 & i1 & Hloop & Hp1)].
  - eexists _, _. split; [reflexivity|].
    unfold reading_notices. repeat split.
    exists "01/01/2020, 10:00". repeat split. now eexists.
  - cbn [renames]. rewrite app_comm_cons, parse_loop_app, Hloop.
    cbn [parse_loop].
    destruct (rename_nth_read n p1 Hp1) as (p2 & -> & Hp2).
    eexists _, _. split; [reflexivity|].
    destruct (_ =? 0)%Z; exact Hp2.
Qed.

Lemma changes_map_seq (u : nat -> option string) (m : nat) : forall a,
  (forall k, a <= k -> u k <> u (S k)) ->
  changes (map u (seq a (S m))) = m.
Proof.
  induction m as [|m IH]; intros a Hu; [reflexivity|].
  change (changes (map u (seq a (S (S m)))))
    with ((if decide (u a = u (S a)) then 0 else 1)
          + changes (map u (seq (S a) (S m)))).
  rewrite IH by (intros k Hk; apply Hu; lia).
  destruct (decide (u a = u (S a))) as [E|_]; [|reflexivity].
  now apply Hu in E.
Qed.

Lemma title_at_changes k : 1 <= k -> title_at k <> title_at (S k).
Proof.
  destruct k as [|[|[|k]]]; [lia|discriminate..|].
  intros _. cbn [title_at nth_title].
  rewrite Nat.even_succ, <- Nat.negb_even.
  now destruct (Nat.even k).
Qed.

(** C4, as the code has it: every finalized entry that is not a chat
    message assigns the chat title once if it is a group-created notice and
    then once if it is a group-renamed notice, so that the title is the one
    assigned last; a chat message leaves the title alone. Nothing limits
    how often the title is assigned in a run: with one creation followed by
    [n] renames the title changes [n + 1] times. *)
Theorem title_assigned_per_notice :
  (forall p p',
     handle_entry p = Ok p' ->
     (matches regex_message (content_buffer p) = true ->
      chat_name p' = chat_name p)
     /\ (matches regex_message (content_buffer p) = false ->
         p' = fold_left (fun q kt => assign_title kt q) (notice_titles p) p
         /\ chat_name p' =
              match last (notice_titles p) with
              | Some kt => Some (snd kt)
              | None => chat_name p
              end)
     /\ length (notice_titles p) <= 2)
  /\ (forall n al mp cw,
        exists p',
          parse_file (created_line :: renames n) (Parser_init en al mp cw) = Ok p'
          /\ chat_name p' = Some (nth_title n)
          /\ title_changes (created_line :: renames n)
               (Parser_init en al mp cw) = S n).
Proof.
  split.
  - intros p p'. unfold handle_entry, matches.
    destruct (date_buffer p) as [db|]; [|discriminate].
    destruct (strptime db (p_date_format p)) as [d|]; [|discriminate].
    intros He. split; [|split].
    + revert He.
      destruct (rmatch regex_message (content_buffer p)) as [gs|];
        [|discriminate 2].
      destruct (rmatch (regex_deleted p) _);
        [|destruct (rmatch (regex_media p) _)]; intros [= <-] _;
        try reflexivity.
      match goal with |- context [handle_text_message ?d ?a ?b p] =>
        destruct (handle_text_message_frame d a b p) as (_ & _ & _ & _ & -> & _)
      end.
      reflexivity.
    + revert He.
      destruct (rmatch regex_message (content_buffer p)) as [gs|];
        [discriminate 2|].
      intros [= <-] _.
      split; [apply handle_notice_titles|apply handle_notice_chat_name].
    + unfold notice_titles.
      destruct (rmatch (regex_created p) _), (rmatch (regex_rename p) _);
        simpl; lia.
  - intros n al mp cw.
    set (p0 := Parser_init en al mp cw).
    set (fp := created_line :: renames n).
    assert (Hfinal : exists p', parse_file fp p0 = Ok p'
                                /\ chat_name p' = Some (nth_title n)).
    { unfold parse_file, fp, p0.
      destruct (renames_read al mp cw n) as (p1 & i1 & -> & Hp1).
      destruct (nth_notice_handled n _ p1 Hp1) as (He & Hn & _).
      cbn [bind]. rewrite He. cbn [bind].
      eexists. split; [reflexivity|exact Hn]. }
    destruct Hfinal as (p' & Hrun & Hn).
    exists p'. split; [exact Hrun|]. split; [exact Hn|].
    assert (Hafter : forall k, k <= S n -> title_after k fp p0 = title_at k).
    { intros [|k] Hk; [reflexivity|].
      unfold title_after, fp. cbn [take].
      rewrite take_renames by lia.
      destruct (renames_read al mp cw k) as (p1 & i1 & Hloop & Hp1).
      unfold p0. rewrite Hloop. cbn [fst title_of].
      now destruct Hp1 as (_ & _ & _ & _ & _ & _ & ->). }
    unfold title_changes, title_history.
    assert (Hlen : length fp = S n)
      by (unfold fp; cbn [length]; now rewrite length_renames).
    rewrite Hlen, Hrun. cbn [title_of]. rewrite Hn.
    rewrite (map_ext_in _ title_at)
      by (intros k Hk; apply in_seq in Hk; apply Hafter; lia).
    change [Some (nth_title n)] with (map title_at [S (S n)]).
    rewrite <- map_app.
    replace (seq 0 (S (S n)) ++ [S (S n)]) with (seq 0 (S (S (S n))))
      by (rewrite (seq_S (S (S n))); reflexivity).
    change (changes (map title_at (seq 0 (S (S (S n))))))
      with (0 + changes (map title_at (seq 1 (S (S n))))).
    rewrite changes_map_seq by (intros k Hk; now apply title_at_changes).
    reflexivity.
Qed.

(** ** The end-to-end scenario *)

(** C3, as the code has it: under the English profile with the default
    settings, whatever the common-words file holds, the scenario gives two
    messages: Alice's of 01/01/2020 10:00 with two parts, and Bob's of
    02/01/2020 10:05 with one part, both initiators. The body length of
    the first is 17, the 5 characters of [Hello] and the 12 of
    [How are you?]; that of the second is 29. *)
Theorem end_to_end_scenario (cw : list string) :
  messages_of (parse_file scenario (Parser_init en None true cw)) =
    Some [Msg "Alice" (DateTime 2020 1 1 10 0 0 0) 17 2 true;
          Msg "Bob" (DateTime 2020 1 2 10 5 0 0) 29 1 true]
  /\ messages_of (parse_file scenario_lines (Parser_init en None true cw)) =
       messages_of (parse_file scenario (Parser_init en None true cw))
  /\ String.length "Hello" + String.length "How are you?" = 17.
Proof. split; [|split]; vm_compute; reflexivity. Qed.

(** * Concrete runs *)

(** C1 fails as stated: in the run of the scenario Alice sends two
    messages, and her entry in [member_msg_count] is still 0. *)
Lemma member_msg_count_stays_zero :
  exists p,
    parse_file scenario p_en = Ok p
    /\ same_agg p (ingest_all scenario_calls p_en)
    /\ calls_by "Alice" scenario_calls = 2
    /\ msg_count p "Alice" = 0%Z.
Proof.
  eexists. split; [vm_compute; reflexivity|].
  split; [|split; reflexivity].
  repeat split; vm_compute; reflexivity.
Qed.

Lemma member_counts_witness :
  exists q,
    parse_file scenario p_en = Ok q
    /\ member_msg_count q = member_msg_count p_en
    /\ parts_per_member (msgs (ingest_all scenario_calls p_en)) "Alice" = 2
    /\ count_per_member (msgs (ingest_all scenario_calls p_en)) "Alice" <= 2.
Proof.
  assert (H : exists q, parse_file scenario p_en = Ok q)
    by (eexists; vm_compute; reflexivity).
  destruct H as [q H]. exists q.
  destruct (member_counts p_en scenario_calls "Alice") as (_ & Hp & Hc & Hrun).
  split; [exact H|]. split; [exact (proj1 (Hrun scenario q H))|].
  split; [exact Hp|exact Hc].
Defined.

(** C2 fails as stated: the alias of [Bob] is [Jane Doe], and [Bob]
    resolves to [Jane]. *)
Lemma alias_value_is_cut :
  bob_alias !! "Bob" = Some "Jane Doe"
  /\ resolve_author bob_alias "Bob" = "Jane"
  /\ resolve_author bob_alias "Bob" <> "Jane Doe".
Proof.
  assert (H : bob_alias !! "Bob" = Some "Jane Doe") by apply lookup_singleton_eq.
  split; [exact H|].
  assert (Hr : resolve_author bob_alias "Bob" = "Jane")
    by (unfold resolve_author; rewrite H; reflexivity).
  split; [exact Hr|]. rewrite Hr. discriminate.
Qed.

Lemma resolve_author_rule_witness :
  resolve_author ∅ "Jane Doe" = "Jane"
  /\ resolve_author ∅ "+49 170 1234567" = "+49 170 1234567"
  /\ resolve_author bob_alias "Bob" = split_first " " "Jane Doe".
Proof.
  split; [|split].
  - destruct (resolve_author_rule ∅ "Jane Doe") as [H _].
    rewrite lookup_empty in H. destruct H as [H _]; [reflexivity..|exact H].
  - destruct (resolve_author_rule ∅ "+49 170 1234567") as [_ H].
    rewrite lookup_empty in H. apply H. right. reflexivity.
  - destruct (resolve_author_rule bob_alias "Bob") as [H _].
    unfold bob_alias in H. rewrite lookup_singleton_eq in H.
    destruct H as [H _]; [reflexivity..|exact H].
Defined.

(** C3 fails as stated: the first message of the scenario has body length
    17, not 21. *)
Lemma scenario_body_length_is_17 :
  exists m1 m2,
    messages_of (parse_file scenario p_en) = Some [m1; m2]
    /\ member m1 = "Alice" /\ parts m1 = 2
    /\ body_len m1 = 17 /\ body_len m1 <> 21.
Proof.
  do 2 eexists. split; [vm_compute; reflexivity|].
  simpl. repeat split. discriminate.
Qed.

(** C4 fails as stated: in a run over a creation and two renames the chat
    title takes three values in turn, so it is assigned three times. *)
Lemma title_assigned_three_times :
  exists p,
    parse_file [created_line; rename_line; rename_line_again] p_en = Ok p
    /\ title_history [created_line; rename_line; rename_line_again] p_en =
         [None; None; Some "Trip"; Some "Trip 2"; Some "Trip 3"]
    /\ title_changes [created_line; rename_line; rename_line_again] p_en = 3
    /\ chat_name p = Some "Trip 3".
Proof.
  eexists. split; [vm_compute; reflexivity|].
  split; [vm_compute; reflexivity|]. split; [vm_compute; reflexivity|].
  reflexivity.
Qed.

Lemma title_assigned_per_notice_witness :
  let p := set_buffers (Some "01/01/2020, 10:00") created_content p_en in
  exists p',
    handle_entry p = Ok p'
    /\ notice_titles p = [("Created:", "Trip")]
    /\ p' = assign_title ("Created:", "Trip") p
    /\ chat_name p' = Some "Trip".
Proof.
  cbv zeta.
  set (p := set_buffers (Some "01/01/2020, 10:00") created_content p_en).
  assert (H : exists p', handle_entry p = Ok p')
    by (eexists; vm_compute; reflexivity).
  destruct H as (p' & H). exists p'. split; [exact H|].
  assert (Ht : notice_titles p = [("Created:", "Trip")])
    by (vm_compute; reflexivity).
  split; [exact Ht|].
  destruct title_assigned_per_notice as [Hentry _].
  destruct (Hentry _ _ H) as (_ & Hn & _).
  destruct Hn as [Hp' Hc]; [vm_compute; reflexivity|].
  rewrite Ht in Hp', Hc. split; [exact Hp'|exact Hc].
Defined.

(** C5 fails as stated: with [multipart=False] a message one minute after
    the previous one, without a question mark, is recorded as an
    initiator. *)
Lemma initiator_without_multipart :
  let p1 := handle_text_message jan1_1000 "Alice" "Hello" p_en_single in
  let p2 := handle_text_message jan1_1001 "Bob" "ok" p1 in
  last (msgs p1) = Some (Msg "Alice" jan1_1000 5 1 true)
  /\ sub_us jan1_1001 jan1_1000 = (60 * 1000000)%Z
  /\ contains_char "?" "ok" = false
  /\ last (msgs p2) = Some (Msg "Bob" jan1_1001 2 1 true).
Proof. repeat split. Qed.

Lemma initiator_rule_witness :
  let p1 := handle_text_message jan1_1000 "Alice" "Hello" p_en in
  sub_us jan2_1000 jan1_1000 = (86400 * 1000000)%Z
  /\ snd (flags p1 jan2_1000 "Bob" "How?") = true
  /\ msgs (handle_text_message jan2_1000 "Bob" "How?" p1) =
       [Msg "Alice" jan1_1000 5 1 true; Msg "Bob" jan2_1000 4 1 true].
Proof.
  cbv zeta. split; [reflexivity|].
  destruct (initiator_rule (handle_text_message jan1_1000 "Alice" "Hello" p_en)
              jan2_1000 "Bob" "How?" [] (Msg "Alice" jan1_1000 5 1 true)
              eq_refl eq_refl) as (_ & Happ & _ & Hb & _).
  assert (Hi : snd (flags (handle_text_message jan1_1000 "Alice" "Hello" p_en)
                      jan2_1000 "Bob" "How?") = true)
    by (apply Hb; reflexivity).
  split; [exact Hi|].
  rewrite Happ by reflexivity. rewrite Hi. reflexivity.
Defined.



(** C7 fails as stated: an input whose second entry is a day older than
    its first gives messages in that order, the later timestamp first. *)
Lemma later_timestamp_first :
  exists p,
    parse_file backwards p_en = Ok p
    /\ map date (msgs p) = [jan2_1000; jan1_1000]
    /\ ~ Sorted dt_le (map date (msgs p)).
Proof.
  eexists. split; [vm_compute; reflexivity|]. split; [reflexivity|].
  simpl. intros Hs. apply Sorted_inv in Hs as [_ Hd].
  apply HdRel_inv in Hd. unfold dt_le in Hd. vm_compute in Hd. now apply Hd.
Qed.

Lemma messages_in_entry_order_witness :
  exists p,
    parse_file scenario p_en = Ok p
    /\ run_calls scenario p_en = scenario_calls
    /\ msgs p = msgs (ingest_all scenario_calls p_en)
    /\ map date (msgs p) `sublist_of`
         entry_dates (date_content en) (date_format en) scenario
    /\ entry_dates (date_content en) (date_format en) scenario =
         [jan1_1000; jan1_1001; jan2_1005].
Proof.
  assert (H : exists p, parse_file scenario p_en = Ok p)
    by (eexists; vm_compute; reflexivity).
  destruct H as [p H]. exists p. split; [exact H|].
  assert (Hc : run_calls scenario p_en = scenario_calls)
    by (vm_compute; reflexivity).
  split; [exact Hc|].
  destruct (messages_in_entry_order en None true [] scenario p H)
    as (Hm & _ & _ & Hs & _).
  split; [rewrite <- Hc; exact Hm|].
  split; [exact Hs|vm_compute; reflexivity].
Defined.

Lemma no_entry_is_fatal_witness :
  exists p',
    parse_file ["Hello" +:+ eol; "2020-01-01 10:00 Alice: Hi" +:+ eol] p_en = Exit 1 p'
    /\ last (out p') = Some no_entry_message.
Proof.
  destruct (no_entry_is_fatal p_en
              ["Hello" +:+ eol; "2020-01-01 10:00 Alice: Hi" +:+ eol] eq_refl)
    as [_ (p' & Hrun & Hout & _)].
  - repeat constructor.
  - exists p'. split; [exact Hrun|exact Hout].
Defined.

Lemma corpus_rendering_witness :
  all_words (handle_text_message jan1_1000 "Alice" "the Quick fox"
               (Parser_init en None true ["the"])) = " quick fox. ".
Proof.
  destruct (corpus_rendering (Parser_init en None true ["the"]) jan1_1000
              "Alice" "the Quick fox") as [_ H].
  destruct (H eq_refl) as [_ H2].
  - apply list_elem_of_here.
  - destruct H2 as [_ H3].
    + intros Hin. apply list_elem_of_singleton in Hin. discriminate.
    + intros Hin. apply list_elem_of_singleton in Hin. discriminate.
    + exact H3.
Defined.

Lemma single_part_all_initiators_witness :
  msgs (handle_text_message jan1_1001 "Alice" "ok"
          (handle_text_message jan1_1000 "Alice" "Hello" p_en_single)) =
    [Msg "Alice" jan1_1000 5 1 true; Msg "Alice" jan1_1001 2 1 true]
  /\ exists p new,
       parse_file scenario p_en_single = Ok p
       /\ msgs p = new /\ Forall (fun m => initiator m = true /\ parts m = 1) new.
Proof.
  split.
  - destruct (single_part_all_initiators
                (handle_text_message jan1_1000 "Alice" "Hello" p_en_single) eq_refl)
      as [H _].
    rewrite H. reflexivity.
  - assert (H : exists p, parse_file scenario p_en_single = Ok p)
      by (eexists; vm_compute; reflexivity).
    destruct H as [p H].
    destruct (single_part_all_initiators p_en_single eq_refl) as [_ Hrun].
    destruct (Hrun scenario p H) as (new & Hm & Hall).
    exists p, new. split; [exact H|]. split; [exact Hm|exact Hall].
Defined.

(** * Further properties of the aggregator *)

(** ** Totals *)

Lemma total_parts_snoc ms m : total_parts (ms ++ [m]) = total_parts ms + parts m.
Proof.
  unfold total_parts. induction ms as [|x ms IH]; simpl; [lia|]. rewrite IH. lia.
Qed.

Lemma total_body_len_snoc ms m :
  total_body_len (ms ++ [m]) = total_body_len ms + body_len m.
Proof.
  unfold total_body_len. induction ms as [|x ms IH]; simpl; [lia|]. rewrite IH. lia.
Qed.

Lemma handle_text_message_totals d a b p :
  let p' := handle_text_message d a b p in
  total_parts (msgs p') = total_parts (msgs p) + 1
  /\ total_body_len (msgs p') = total_body_len (msgs p) + String.length b
  /\ length (msgs p) <= length (msgs p') <= length (msgs p) + 1
  /\ (Forall (fun m => 1 <= parts m) (msgs p) ->
      Forall (fun m => 1 <= parts m) (msgs p')).
Proof.
  cbv zeta. destruct (flags p d a b) as [[] ini] eqn:Hf.
  - destruct (flags_merge_inv _ _ _ _ _ Hf) as (ms & prev & Hm & _).
    rewrite (handle_text_message_merge _ _ _ _ ms prev) by (now rewrite Hf || exact Hm).
    rewrite Hm, !total_parts_snoc, !total_body_len_snoc, !length_app. simpl.
    repeat split; try lia.
    rewrite !Forall_app, !Forall_singleton. simpl. intros [? ?]. split; [done|lia].
  - rewrite handle_text_message_append by now rewrite Hf.
    rewrite total_parts_snoc, total_body_len_snoc, length_app. simpl.
    repeat split; try lia.
    rewrite Forall_app, Forall_singleton. simpl. intros ?. split; [done|lia].
Qed.

Lemma ingest_all_cons c calls p :
  ingest_all (c :: calls) p = ingest_all calls (ingest p c).
Proof. reflexivity. Qed.

Lemma bodies_len_cons c calls :
  bodies_len (c :: calls) = String.length (call_body c) + bodies_len calls.
Proof. reflexivity. Qed.

Lemma ingest_all_sums calls : forall p,
  let p' := ingest_all calls p in
  total_parts (msgs p') = total_parts (msgs p) + length calls
  /\ total_body_len (msgs p') = total_body_len (msgs p) + bodies_len calls
  /\ length (msgs p) <= length (msgs p') <= length (msgs p) + length calls
  /\ (Forall (fun m => 1 <= parts m) (msgs p) ->
      Forall (fun m => 1 <= parts m) (msgs p')).
Proof.
  cbv zeta.
  induction calls as [|[[d a] b] calls IH]; intros p.
  - simpl. unfold bodies_len. simpl. repeat split; (lia || done).
  - rewrite ingest_all_cons, bodies_len_cons. cbn [ingest call_body snd length].
    destruct (IH (handle_text_message d a b p)) as (H1 & H2 & H3 & H4).
    destruct (handle_text_message_totals d a b p) as (G1 & G2 & G3 & G4).
    rewrite H1, H2, G1, G2. repeat split; try lia. intros Hall. auto.
Qed.

(** X1. Every message adds one part and the length of its body to the message
    list, whether it is merged or not; the list never shrinks and grows by
    at most one record per message. A completed run of a new parser
    therefore leaves a list whose part counts are all 1 or more and add up
    to the number of messages ingested, which is at least the number of
    records. *)
Theorem ingest_all_totals (p : Parser) :
  (forall calls,
     let p' := ingest_all calls p in
     total_parts (msgs p') = total_parts (msgs p) + length calls
     /\ total_body_len (msgs p') = total_body_len (msgs p) + bodies_len calls
     /\ length (msgs p) <= length (msgs p') <= length (msgs p) + length calls)
  /\ (forall fp q,
        msgs p = [] ->
        parse_file fp p = Ok q ->
        Forall (fun m => 1 <= parts m) (msgs q)
        /\ length (msgs q) <= total_parts (msgs q)
        /\ exists run,
             total_parts (msgs q) = length run
             /\ total_body_len (msgs q) = bodies_len run).
Proof.
  split.
  - intros calls. destruct (ingest_all_sums calls p) as (H1 & H2 & H3 & _).
    cbv zeta. auto.
  - intros fp q Hemp Hrun.
    apply parse_file_calls in Hrun as (calls & (_ & _ & _ & Hm & _) & _).
    destruct (ingest_all_sums calls p) as (H1 & H2 & H3 & H4).
    rewrite Hemp in H1, H2, H3, H4. rewrite Hm.
    split; [apply H4; constructor|]. split; [simpl in *; lia|].
    exists calls. split; [exact H1|exact H2].
Qed.

(** ** Records are final *)

Lemma grown_from_refl m : grown_from m m.
Proof. unfold grown_from. repeat split; lia. Qed.

Lemma grown_from_trans m1 m2 m3 :
  grown_from m1 m2 -> grown_from m2 m3 -> grown_from m1 m3.
Proof. unfold grown_from. intuition (congruence || lia). Qed.

Lemma handle_text_message_lookup d a b p i m :
  msgs p !! i = Some m ->
  exists m',
    msgs (handle_text_message d a b p) !! i = Some m' /\ grown_from m m'
    /\ (S i < length (msgs p) -> m' = m).
Proof.
  intros Hi. destruct (flags p d a b) as [[] ini] eqn:Hf.
  - destruct (flags_merge_inv _ _ _ _ _ Hf) as (ms & prev & Hm & _).
    rewrite (handle_text_message_merge _ _ _ _ ms prev) by (now rewrite Hf || exact Hm).
    rewrite Hm in Hi |- *. rewrite length_app. simpl.
    destruct (decide (i < length ms)) as [Hlt|Hge].
    + rewrite lookup_app_l in Hi |- * by exact Hlt.
      exists m. split; [exact Hi|]. split; [apply grown_from_refl|done].
    + pose proof (lookup_lt_Some _ _ _ Hi) as Hb. rewrite length_app in Hb.
      simpl in Hb. assert (i = length ms) as -> by lia.
      rewrite lookup_app_r in Hi |- * by lia.
      rewrite Nat.sub_diag in Hi |- *. simpl in Hi |- *.
      injection Hi as <-. exists (add_part b prev).
      split; [reflexivity|]. split; [|lia].
      unfold grown_from, add_part. simpl. repeat split; lia.
  - rewrite handle_text_message_append by now rewrite Hf.
    exists m. split; [|split; [apply grown_from_refl|done]].
    rewrite lookup_app_l; [exact Hi|]. eapply lookup_lt_Some, Hi.
Qed.

Lemma ingest_all_lookup calls : forall p i m,
  msgs p !! i = Some m ->
  exists m',
    msgs (ingest_all calls p) !! i = Some m' /\ grown_from m m'
    /\ (S i < length (msgs p) -> m' = m).
Proof.
  induction calls as [|[[d a] b] calls IH]; intros p i m Hi.
  - exists m. split; [exact Hi|]. split; [apply grown_from_refl|done].
  - rewrite ingest_all_cons. cbn [ingest].
    destruct (handle_text_message_lookup d a b p i m Hi) as (m1 & H1 & G1 & E1).
    destruct (IH _ i m1 H1) as (m2 & H2 & G2 & E2).
    exists m2. split; [exact H2|]. split; [eapply grown_from_trans; eassumption|].
    intros Hlt. rewrite E2, E1; [reflexivity|exact Hlt|].
    destruct (handle_text_message_totals d a b p) as (_ & _ & Hlen & _). lia.
Qed.

(** X2. A record, once in the list, keeps its place, author, timestamp and
    initiator flag through any further messages and through a whole parse
    run; only its part count and body length can grow, and only while it
    is the last record: a record that has a successor never changes
    again. *)
Theorem records_are_final (p : Parser) (i : nat) (m : Message) :
  msgs p !! i = Some m ->
  (forall calls,
     exists m',
       msgs (ingest_all calls p) !! i = Some m' /\ grown_from m m'
       /\ (S i < length (msgs p) -> m' = m))
  /\ (forall fp q,
        parse_file fp p = Ok q ->
        exists m',
          msgs q !! i = Some m' /\ grown_from m m'
          /\ (S i < length (msgs p) -> m' = m)).
Proof.
  intros Hi. split.
  - intros calls. now apply ingest_all_lookup.
  - intros fp q Hrun.
    apply parse_file_calls in Hrun as (calls & (_ & _ & _ & Hm & _) & _).
    rewrite Hm. now apply ingest_all_lookup.
Qed.

(** ** The first message *)

(** X3. The first message a parser with an empty list receives is recorded
    as an initiator, whatever its body and whatever the multipart setting,
    and it stays the first record with that flag: every completed run that
    records a message has an initiator at the head of its list. *)
Theorem first_message_is_initiator (p : Parser) :
  msgs p = [] ->
  (forall d a b calls,
     exists m,
       head (msgs (ingest_all ((d, a, b) :: calls) p)) = Some m
       /\ member m = a /\ date m = d /\ initiator m = true)
  /\ (forall fp q m,
        parse_file fp p = Ok q -> head (msgs q) = Some m -> initiator m = true).
Proof.
  intros Hemp.
  assert (Hfirst : forall d a b calls,
            exists m,
              head (msgs (ingest_all ((d, a, b) :: calls) p)) = Some m
              /\ member m = a /\ date m = d /\ initiator m = true).
  { intros d a b calls. rewrite ingest_all_cons. cbn [ingest].
    assert (H0 : msgs (handle_text_message d a b p) !! 0
                 = Some (Msg a d (String.length b) 1 true)).
    { rewrite handle_text_message_append by now rewrite flags_first.
      now rewrite flags_first, Hemp. }
    destruct (ingest_all_lookup calls _ 0 _ H0) as (m & Hm & (G1 & G2 & G3 & _) & _).
    exists m. rewrite <- head_lookup in Hm. now repeat split. }
  split; [exact Hfirst|].
  intros fp q m Hrun Hhead.
  apply parse_file_calls in Hrun as (calls & (_ & _ & _ & Hm & _) & _).
  rewrite Hm in Hhead. destruct calls as [|[[d a] b] calls].
  - simpl in Hhead. rewrite Hemp in Hhead. discriminate.
  - destruct (Hfirst d a b calls) as (m' & Hh & _ & _ & Hi).
    pose proof (eq_trans (eq_sym Hhead) Hh) as E. injection E as ->. exact Hi.
Qed.

(** ** The corpus of a run *)

Lemma corpus_of_cons cw c calls :
  corpus_of cw (c :: calls) =
    render (kept_words cw (call_body c)) +:+ ". " +:+ corpus_of cw calls.
Proof. reflexivity. Qed.

Lemma ingest_all_common_words calls : forall p,
  common_words (ingest_all calls p) = common_words p.
Proof.
  induction calls as [|[[d a] b] calls IH]; intros p; [reflexivity|].
  rewrite ingest_all_cons, IH. cbn [ingest].
  now destruct (handle_text_message_frame d a b p) as (_ & -> & _).
Qed.

Lemma ingest_all_all_words calls : forall p,
  all_words (ingest_all calls p) =
    all_words p +:+ corpus_of (common_words p) calls.
Proof.
  induction calls as [|[[d a] b] calls IH]; intros p.
  - simpl. now rewrite append_nil_r.
  - rewrite ingest_all_cons, IH, corpus_of_cons. cbn [ingest call_body snd].
    rewrite handle_text_message_all_words.
    destruct (handle_text_message_frame d a b p) as (_ & -> & _).
    unfold extract_words. rewrite fold_add_word.
    fold (kept_words (common_words p) b). now rewrite !append_assoc.
Qed.

(** X4. The corpus is append-only and grows by one rendering and one
    terminator per message: after a sequence of calls, and after a whole
    run, it is the old corpus followed by the renderings of the bodies in
    order, as many as parts were added to the message list. *)
Theorem corpus_of_a_run (p : Parser) :
  (forall calls,
     all_words (ingest_all calls p) =
       all_words p +:+ corpus_of (common_words p) calls)
  /\ (forall fp q,
        parse_file fp p = Ok q ->
        exists run,
          all_words q = all_words p +:+ corpus_of (common_words p) run
          /\ total_parts (msgs q) = total_parts (msgs p) + length run
          /\ common_words q = common_words p).
Proof.
  split; [intros calls; apply ingest_all_all_words|].
  intros fp q Hrun.
  apply parse_file_calls in Hrun as (calls & (_ & Hc & _ & Hm & Hw) & _).
  exists calls. rewrite Hw, Hm, Hc. split; [apply ingest_all_all_words|].
  split; [|apply ingest_all_common_words].
  destruct (ingest_all_sums calls p) as (H & _). exact H.
Qed.

(** ** Invariants of a parse run *)

Section Invariant.
Variable Inv : Parser -> Prop.
Hypothesis Inv_print : forall o p, Inv p -> Inv (print o p).
Hypothesis Inv_buffers : forall db cb p, Inv p -> Inv (set_buffers db cb p).
Hypothesis Inv_title : forall n p, Inv p -> Inv (set_chat_name n p).
Hypothesis Inv_message : forall d raw b p,
  Inv p -> Inv (handle_text_message d (resolve_author (aliases p) raw) b p).

Lemma handle_notice_invariant p : Inv p -> Inv (handle_notice p).
Proof.
  intros Hp. unfold handle_notice.
  destruct (rmatch (regex_created p) (content_buffer p));
    match goal with |- context [rmatch ?r ?s] => destruct (rmatch r s) end;
    auto.
Qed.

Lemma handle_entry_invariant p q : Inv p -> handle_entry p = Ok q -> Inv q.
Proof.
  intros Hp. unfold handle_entry.
  destruct (date_buffer p) as [db|]; [|discriminate].
  destruct (strptime db (p_date_format p)) as [d|]; [|discriminate].
  destruct (rmatch regex_message (content_buffer p)) as [gs|].
  - destruct (matches (regex_deleted p) _); [|destruct (matches (regex_media p) _)];
      intros [= <-]; auto.
  - intros [= <-]. now apply handle_notice_invariant.
Qed.

Lemma parse_line_invariant line p q : Inv p -> parse_line line p = Ok q -> Inv q.
Proof.
  intros Hp. unfold parse_line.
  destruct (rmatch (regex_date_content p) line) as [gs|].
  - destruct (truthy (date_buffer p)).
    + destruct (handle_entry p) as [p1|] eqn:He; [|discriminate].
      cbn [bind]. intros [= <-]. eauto using handle_entry_invariant.
    + cbn [bind]. intros [= <-]. auto.
  - intros [= <-]. auto.
Qed.

Lemma parse_loop_invariant fp : forall i p q i',
  Inv p -> parse_loop fp i p = (Ok q, i') -> Inv q.
Proof.
  induction fp as [|line fp IH]; intros i p q i' Hp; cbn [parse_loop].
  - now intros [= <- _].
  - destruct (parse_line line p) as [p1|] eqn:Hl; [|discriminate].
    apply IH. destruct (_ =? 0)%Z; eauto using parse_line_invariant.
Qed.

Lemma parse_file_invariant fp p q : Inv p -> parse_file fp p = Ok q -> Inv q.
Proof.
  intros Hp. unfold parse_file.
  destruct (parse_loop fp 0 _) as [r i] eqn:Hloop.
  destruct r as [p1|]; [|discriminate]. cbn [bind].
  destruct (handle_entry p1) as [p2|] eqn:He; [|discriminate]. cbn [bind].
  intros [= <-]. apply Inv_print.
  eapply handle_entry_invariant; [|exact He].
  eapply parse_loop_invariant; [|exact Hloop]. auto.
Qed.
End Invariant.

(** ** Resolved author names *)

Lemma resolve_author_name_ok al raw : name_ok (resolve_author al raw).
Proof.
  unfold name_ok, resolve_author.
  set (a := match al !! raw with Some a => a | None => raw end).
  destruct (contains_char " " a) eqn:Hs; simpl.
  - destruct (contains_char "+" a) eqn:Hp; simpl.
    + now rewrite Hp.
    + destruct (split_first_token a Hs) as [Hn _]. rewrite Hn. discriminate.
  - rewrite Hs. discriminate.
Qed.

Lemma handle_text_message_members (P : string -> Prop) d a b p :
  P a -> Forall (fun m => P (member m)) (msgs p) ->
  Forall (fun m => P (member m)) (msgs (handle_text_message d a b p)).
Proof.
  intros Ha Hall. destruct (flags p d a b) as [[] ini] eqn:Hf.
  - destruct (flags_merge_inv _ _ _ _ _ Hf) as (ms & prev & Hm & _).
    rewrite (handle_text_message_merge _ _ _ _ ms prev) by (now rewrite Hf || exact Hm).
    rewrite Hm in Hall. rewrite Forall_app, Forall_singleton in Hall |- *.
    exact Hall.
  - rewrite handle_text_message_append by now rewrite Hf.
    rewrite Forall_app, Forall_singleton. now split.
Qed.

(** X5. Whatever the alias mapping and the raw identifier, the resolved author
    name contains a space only if it contains a plus sign; so after a
    parse run no author in the message list has a space in the name,
    phone numbers apart. *)
Theorem resolved_names_are_single_tokens (p : Parser) :
  (forall raw, name_ok (resolve_author (aliases p) raw))
  /\ (forall fp q,
        Forall (fun m => name_ok (member m)) (msgs p) ->
        parse_file fp p = Ok q ->
        Forall (fun m => name_ok (member m)) (msgs q)).
Proof.
  split; [intros raw; apply resolve_author_name_ok|].
  intros fp q Hall Hrun.
  apply (parse_file_invariant
           (fun r => Forall (fun m => name_ok (member m)) (msgs r))) in Hrun;
    auto.
  intros d raw b r Hr.
  apply handle_text_message_members; [apply resolve_author_name_ok|exact Hr].
Qed.

(** ** The initiator chart without multipart *)

Lemma init_per_member_all ms a :
  Forall (fun m => initiator m = true) ms ->
  init_per_member ms a = count_per_member ms a.
Proof.
  unfold init_per_member, count_per_member.
  induction 1 as [|m ms Hm _ IH]; [reflexivity|].
  rewrite !filter_cons.
  destruct (decide (member m = a)) as [Ha|Ha];
    destruct (decide (member m = a /\ initiator m = true)) as [Hb|Hb];
    simpl; try (f_equal; exact IH); try exact IH; exfalso; tauto.
Qed.

(** X6. With [multipart=False] the figures of the initiator chart are those
    of the activity chart: after a run of a new parser every member has as
    many initiated conversations as records. *)
Theorem initiator_chart_without_multipart (p : Parser) :
  multipart p = false ->
  msgs p = [] ->
  forall fp q a,
    parse_file fp p = Ok q ->
    init_per_member (msgs q) a = count_per_member (msgs q) a.
Proof.
  intros Hmp Hemp fp q a Hrun.
  apply parse_file_calls in Hrun as (calls & (_ & _ & _ & Hm & _) & _).
  apply init_per_member_all. rewrite Hm, (ingest_all_single calls p Hmp), Hemp.
  simpl. apply Forall_forall. intros m Hin.
  apply list_elem_of_fmap in Hin as ([[d x] b] & -> & _). reflexivity.
Qed.

(** * Further properties of a parse run *)

(** ** Fatal runs *)

Lemma handle_entry_exit p c q :
  handle_entry p = Exit c q ->
  c = 1%Z
  /\ (q = print no_entry_message p
      \/ q = print Stdout_exc (print date_error_message p)).
Proof.
  unfold handle_entry.
  destruct (date_buffer p) as [db|]; [|intros [= <- <-]; auto].
  destruct (strptime db (p_date_format p)) as [d|]; [|intros [= <- <-]; auto].
  destruct (rmatch regex_message (content_buffer p)); [|discriminate].
  destruct (matches (regex_deleted p) _); [discriminate|].
  destruct (matches (regex_media p) _); discriminate.
Qed.

Lemma parse_line_exit line p c q :
  parse_line line p = Exit c q -> handle_entry p = Exit c q.
Proof.
  unfold parse_line.
  destruct (rmatch (regex_date_content p) line); [|discriminate].
  destruct (truthy (date_buffer p)); [|discriminate].
  destruct (handle_entry p); [discriminate|]. cbn [bind]. now intros [= <- <-].
Qed.

Lemma parse_loop_exit fp : forall i p c q i',
  parse_loop fp i p = (Exit c q, i') -> exists p1, handle_entry p1 = Exit c q.
Proof.
  induction fp as [|line fp IH]; intros i p c q i'; cbn [parse_loop].
  - discriminate.
  - destruct (parse_line line p) as [p1|c1 q1] eqn:Hl.
    + apply IH.
    + intros [= <- <- _]. exists p. exact (parse_line_exit _ _ _ _ Hl).
Qed.

(** X7. A run that does not complete exits with status 1, and the last thing
    it wrote is a diagnostic: the missing-entry message, or the date
    message followed by the text of the exception. *)
Theorem fatal_runs (fp : list string) (p q : Parser) (c : Z) :
  parse_file fp p = Exit c q ->
  c = 1%Z /\ fatal_output (out q).
Proof.
  unfold parse_file.
  destruct (parse_loop fp 0 _) as [r i] eqn:Hloop.
  intros Hrun.
  assert (Hex : exists p1, handle_entry p1 = Exit c q).
  { destruct r as [p1|c1 q1].
    - cbn [bind] in Hrun. destruct (handle_entry p1) as [p2|c2 q2] eqn:He.
      + discriminate.
      + cbn [bind] in Hrun. injection Hrun as <- <-. now exists p1.
    - cbn [bind] in Hrun. injection Hrun as <- <-.
      eapply parse_loop_exit, Hloop. }
  destruct Hex as (p1 & He). apply handle_entry_exit in He as (-> & [-> | ->]).
  - split; [reflexivity|]. left. apply last_snoc.
  - split; [reflexivity|]. right. exists (out p1). simpl.
    now rewrite <- app_assoc.
Qed.

(** ** When a run completes *)

Lemma entry_stamps_cons re line fp :
  entry_stamps re (line :: fp) = entry_stamps re [line] ++ entry_stamps re fp.
Proof. unfold entry_stamps. simpl. now destruct (rmatch re line). Qed.

Lemma handle_entry_ok_inv p q :
  handle_entry p = Ok q ->
  exists g, date_buffer p = Some g /\ parses (p_date_format p) g.
Proof.
  unfold handle_entry, parses.
  destruct (date_buffer p) as [g|]; [|discriminate].
  destruct (strptime g (p_date_format p)) as [d|] eqn:Hd; [|discriminate].
  intros _. exists g. rewrite Hd. split; [reflexivity|now eexists].
Qed.

Lemma handle_entry_total p g :
  date_buffer p = Some g -> parses (p_date_format p) g ->
  exists q, handle_entry p = Ok q.
Proof.
  unfold handle_entry, parses. intros -> [d ->].
  destruct (rmatch regex_message (content_buffer p)); [|now eexists].
  destruct (matches (regex_deleted p) _); [now eexists|].
  destruct (matches (regex_media p) _); now eexists.
Qed.

Lemma truthy_false_stamp p :
  truthy (date_buffer p) = false ->
  Forall (fun g => g <> EmptyString -> parses (p_date_format p) g) (pending_stamp p).
Proof.
  unfold pending_stamp. destruct (date_buffer p) as [[|c g]|]; simpl;
    [|discriminate|]; intros _; repeat constructor. congruence.
Qed.

Lemma parse_line_checked line p q :
  parse_line line p = Ok q ->
  exists checked,
    pending_stamp p ++ entry_stamps (regex_date_content p) [line]
      = checked ++ pending_stamp q
    /\ Forall (fun g => g <> EmptyString -> parses (p_date_format p) g) checked
    /\ same_profile q p.
Proof.
  unfold parse_line, entry_stamps. cbn [omap list_omap].
  destruct (rmatch (regex_date_content p) line) as [gs|].
  - destruct (truthy (date_buffer p)) eqn:Ht.
    + destruct (handle_entry p) as [p1|] eqn:He; [|discriminate].
      cbn [bind]. intros [= <-].
      destruct (handle_entry_ok_inv _ _ He) as (g & Hg & Hp).
      destruct (handle_entry_calls _ _ He) as (_ & _ & Hprof & _).
      exists [g]. unfold pending_stamp. rewrite Hg. simpl.
      split; [reflexivity|]. split; [|exact Hprof]. now repeat constructor.
    + cbn [bind]. intros [= <-]. exists (pending_stamp p).
      split; [reflexivity|]. split; [now apply truthy_false_stamp|done].
  - intros [= <-]. exists []. simpl. rewrite app_nil_r.
    split; [reflexivity|]. split; [constructor|done].
Qed.

Lemma parse_loop_checked fp : forall i p q i',
  parse_loop fp i p = (Ok q, i') ->
  exists checked,
    pending_stamp p ++ entry_stamps (regex_date_content p) fp
      = checked ++ pending_stamp q
    /\ Forall (fun g => g <> EmptyString -> parses (p_date_format p) g) checked
    /\ same_profile q p.
Proof.
  induction fp as [|line fp IH]; intros i p q i'; cbn [parse_loop].
  - intros [= <- _]. exists []. simpl. rewrite app_nil_r.
    split; [reflexivity|]. split; [constructor|done].
  - destruct (parse_line line p) as [p1|] eqn:Hl; [|discriminate].
    intros Hloop. apply IH in Hloop as (c2 & E2 & F2 & P2).
    apply parse_line_checked in Hl as (c1 & E1 & F1 & P1).
    set (p1' := if (_ =? 0)%Z then _ else p1) in *.
    assert (Hp1 : pending_stamp p1' = pending_stamp p1 /\ same_profile p1' p1)
      by (unfold p1'; destruct (_ =? 0)%Z; now repeat split).
    destruct Hp1 as [Hpend [Hr1 Hf1]]. destruct P1 as [Hr Hf].
    rewrite Hpend, Hr1, Hr in E2. rewrite Hf1, Hf in F2.
    exists (c1 ++ c2). split; [|split].
    + rewrite entry_stamps_cons, app_assoc, E1, <- !app_assoc. now rewrite E2.
    + now apply Forall_app.
    + unfold same_profile in *. destruct P2. split; congruence.
Qed.

Lemma parse_line_total line p :
  Forall (parses (p_date_format p)) (pending_stamp p) ->
  Forall (parses (p_date_format p)) (entry_stamps (regex_date_content p) [line]) ->
  exists q,
    parse_line line p = Ok q /\ same_profile q p
    /\ Forall (parses (p_date_format p)) (pending_stamp q)
    /\ (pending_stamp q = [] ->
        pending_stamp p = [] /\ entry_stamps (regex_date_content p) [line] = []).
Proof.
  unfold parse_line, entry_stamps. cbn [omap list_omap].
  destruct (rmatch (regex_date_content p) line) as [gs|]; intros Hp Hl.
  - assert (He : exists p1, (if truthy (date_buffer p) then handle_entry p else Ok p)
                            = Ok p1 /\ same_profile p1 p).
    { unfold pending_stamp in Hp. destruct (date_buffer p) as [g|] eqn:Hg;
        [|now exists p].
      destruct (truthy (Some g)); [|now exists p].
      rewrite Forall_singleton in Hp.
      destruct (handle_entry_total p g Hg Hp) as [p1 He]. exists p1.
      split; [exact He|]. now destruct (handle_entry_calls _ _ He) as (_ & _ & ? & _). }
    destruct He as (p1 & -> & Hprof). cbn [bind]. eexists. split; [reflexivity|].
    split; [exact Hprof|]. split; [|discriminate]. exact Hl.
  - eexists. split; [reflexivity|]. split; [done|]. split; [exact Hp|].
    intros H. split; [exact H|reflexivity].
Qed.

Lemma parse_loop_total fp : forall i p,
  Forall (parses (p_date_format p)) (pending_stamp p) ->
  Forall (parses (p_date_format p)) (entry_stamps (regex_date_content p) fp) ->
  exists q i',
    parse_loop fp i p = (Ok q, i') /\ same_profile q p
    /\ Forall (parses (p_date_format p)) (pending_stamp q)
    /\ (pending_stamp q = [] ->
        pending_stamp p = [] /\ entry_stamps (regex_date_content p) fp = []).
Proof.
  induction fp as [|line fp IH]; intros i p Hp Hfp; cbn [parse_loop].
  - exists p, i. repeat split; auto.
  - rewrite entry_stamps_cons in Hfp. apply Forall_app in Hfp as [Hl Hfp].
    destruct (parse_line_total line p Hp Hl) as (p1 & -> & [Hr Hf] & Hp1 & Hn1).
    set (p1' := if (_ =? 0)%Z then _ else p1).
    assert (Hp1' : pending_stamp p1' = pending_stamp p1
                   /\ regex_date_content p1' = regex_date_content p1
                   /\ p_date_format p1' = p_date_format p1)
      by (unfold p1'; destruct (_ =? 0)%Z; now repeat split).
    destruct Hp1' as (Hpend & Hr' & Hf').
    destruct (IH (i + 1)%Z p1') as (q & i' & Hloop & [Hrq Hfq] & Hq & Hnq).
    { now rewrite Hf', Hf, Hpend. }
    { now rewrite Hf', Hf, Hr', Hr. }
    exists q, i'. split; [exact Hloop|].
    split; [split; congruence|].
    split; [now rewrite Hf', Hf in Hq|].
    intros Hnil. destruct (Hnq Hnil) as [H1 H2].
    rewrite Hpend in H1. rewrite Hr', Hr in H2.
    destruct (Hn1 H1) as [H3 H4]. split; [exact H3|].
    now rewrite entry_stamps_cons, H4, H2.
Qed.

(** X8. A run of a parser that has seen no entry yet completes only if the
    input has an entry-start line and [strptime] accepts the timestamp of
    every entry-start line (an empty timestamp text apart); and it does
    complete whenever the input has an entry-start line and every
    timestamp is accepted. Nothing else can make a run fail. *)
Theorem run_completes (fp : list string) (p : Parser) :
  date_buffer p = None ->
  let stamps := entry_stamps (regex_date_content p) fp in
  (forall q,
     parse_file fp p = Ok q ->
     stamps <> []
     /\ Forall (fun g => g <> EmptyString -> parses (p_date_format p) g) stamps)
  /\ (stamps <> [] ->
      Forall (parses (p_date_format p)) stamps ->
      exists q, parse_file fp p = Ok q).
Proof.
  intros Hnone stamps. split.
  - intros q. unfold parse_file.
    destruct (parse_loop fp 0 _) as [r i] eqn:Hloop.
    destruct r as [p1|]; [|discriminate]. cbn [bind].
    destruct (handle_entry p1) as [p2|] eqn:He; [|discriminate]. intros _.
    apply parse_loop_checked in Hloop as (checked & E & F & [_ Hf]).
    apply handle_entry_ok_inv in He as (g & Hg & Hpg).
    unfold pending_stamp in E. cbn in E. rewrite Hnone, Hg in E. cbn in E, F.
    fold stamps in E. rewrite E. split.
    + intros Hnil. apply app_eq_nil in Hnil as [_ Hnil]. discriminate.
    + apply Forall_app. split; [exact F|].
      apply Forall_singleton. intros _. cbn in Hf. now rewrite <- Hf.
  - intros Hne Hall. unfold parse_file.
    destruct (parse_loop_total fp 0%Z (print (Stdout [VStr "Parsing file..."]) p))
      as (p1 & i1 & -> & [_ Hf1] & Hp1 & Hn1).
    { unfold pending_stamp. cbn. rewrite Hnone. constructor. }
    { exact Hall. }
    cbn [bind]. unfold pending_stamp in Hp1, Hn1.
    destruct (date_buffer p1) as [g|] eqn:Hg.
    + rewrite Forall_singleton, <- Hf1 in Hp1.
      destruct (handle_entry_total p1 g Hg Hp1) as [p2 ->].
      cbn [bind]. now eexists.
    + destruct (Hn1 eq_refl) as [_ Hnil]. cbn in Hnil. contradiction.
Qed.

(** ** What a run prints *)

Lemma progress_lines_app o1 o2 :
  progress_lines (o1 ++ o2) = progress_lines o1 + progress_lines o2.
Proof. unfold progress_lines. now rewrite List.filter_app, length_app. Qed.

Lemma handle_notice_out p :
  exists mid, out (handle_notice p) = out p ++ mid /\ progress_lines mid = 0.
Proof.
  unfold handle_notice.
  destruct (rmatch (regex_created p) (content_buffer p)) as [g1|];
    simpl (regex_rename _); simpl (content_buffer _);
    destruct (rmatch (regex_rename p) (content_buffer p)) as [g2|]; simpl (out _).
  - eexists. rewrite <- app_assoc. split; reflexivity.
  - eexists. split; reflexivity.
  - eexists. split; reflexivity.
  - exists []. now rewrite app_nil_r.
Qed.

Lemma handle_entry_out p q :
  handle_entry p = Ok q ->
  exists mid, out q = out p ++ mid /\ progress_lines mid = 0.
Proof.
  unfold handle_entry.
  destruct (date_buffer p) as [db|]; [|discriminate].
  destruct (strptime db (p_date_format p)) as [d|]; [|discriminate].
  destruct (rmatch regex_message (content_buffer p)) as [gs|].
  - destruct (matches (regex_deleted p) _); [|destruct (matches (regex_media p) _)];
      intros [= <-]; exists []; rewrite app_nil_r; split; try reflexivity.
    match goal with |- context [handle_text_message ?d ?a ?b p] =>
      now destruct (handle_text_message_frame d a b p) as (_ & _ & _ & _ & _ & -> & _) end.
  - intros [= <-]. apply handle_notice_out.
Qed.

Lemma parse_line_out line p q :
  parse_line line p = Ok q ->
  exists mid, out q = out p ++ mid /\ progress_lines mid = 0.
Proof.
  unfold parse_line.
  destruct (rmatch (regex_date_content p) line) as [gs|].
  - destruct (truthy (date_buffer p)).
    + destruct (handle_entry p) as [p1|] eqn:He; [|discriminate].
      cbn [bind]. intros [= <-]. simpl (out _). now apply handle_entry_out.
    + cbn [bind]. intros [= <-]. exists []. now rewrite app_nil_r.
  - intros [= <-]. exists []. now rewrite app_nil_r.
Qed.

Lemma parse_loop_out fp : forall i p q i',
  (0 <= i)%Z ->
  parse_loop fp i p = (Ok q, i') ->
  i' = (i + Z.of_nat (length fp))%Z
  /\ exists mid,
       out q = out p ++ mid
       /\ Z.of_nat (progress_lines mid) = (i' / 500 - i / 500)%Z.
Proof.
  induction fp as [|line fp IH]; intros i p q i' Hi; cbn [parse_loop].
  - intros [= <- <-]. split; [simpl; lia|].
    exists []. rewrite app_nil_r. split; [reflexivity|].
    change (progress_lines []) with 0. lia.
  - destruct (parse_line line p) as [p1|] eqn:Hl; [|discriminate].
    intros Hloop. apply IH in Hloop as (-> & mid2 & E2 & C2); [|lia].
    apply parse_line_out in Hl as (mid1 & E1 & C1).
    split; [cbn [length]; lia|].
    pose proof (Z.div_mod (i + 1) 500 ltac:(lia)) as D1.
    pose proof (Z.mod_pos_bound (i + 1) 500 ltac:(lia)) as B1.
    pose proof (Z.div_mod i 500 ltac:(lia)) as D0.
    pose proof (Z.mod_pos_bound i 500 ltac:(lia)) as B0.
    destruct ((i + 1) mod 500 =? 0)%Z eqn:Hmod.
    + apply Z.eqb_eq in Hmod. simpl (out _) in E2.
      exists (mid1 ++ [Stdout [VInt (i + 1); VStr "lines parsed"]] ++ mid2).
      split; [rewrite E2, E1, <- !app_assoc; reflexivity|].
      rewrite !progress_lines_app, C1.
      change (progress_lines [Stdout [VInt (i + 1); VStr "lines parsed"]]) with 1.
      lia.
    + apply Z.eqb_neq in Hmod.
      exists (mid1 ++ mid2). split; [rewrite E2, E1, <- app_assoc; reflexivity|].
      rewrite progress_lines_app, C1. lia.
Qed.

(** X9. A run that completes prints the opening line first, a progress line
    for every 500 lines read, and the summary last; the summary reports the
    number of lines of the input and the number of records in the message
    list. What was printed before the run stays. *)
Theorem run_output (fp : list string) (p q : Parser) :
  parse_file fp p = Ok q ->
  exists mid,
    out q = out p ++ [Stdout [VStr "Parsing file..."]] ++ mid
              ++ [summary_line (length fp) (length (msgs q))]
    /\ Z.of_nat (progress_lines mid) = (Z.of_nat (length fp) / 500)%Z.
Proof.
  unfold parse_file.
  destruct (parse_loop fp 0 _) as [r i] eqn:Hloop.
  destruct r as [p1|]; [|discriminate]. cbn [bind].
  destruct (handle_entry p1) as [p2|] eqn:He; [|discriminate]. cbn [bind].
  intros [= <-].
  apply parse_loop_out in Hloop as (-> & mid1 & E1 & C1); [|lia].
  apply handle_entry_out in He as (mid2 & E2 & C2).
  exists (mid1 ++ mid2). split.
  - simpl (out _) in *. rewrite E2, E1, <- !app_assoc. simpl.
    unfold summary_line. rewrite Z.add_0_l. reflexivity.
  - rewrite progress_lines_app, C2. rewrite Z.add_0_l in C1.
    change (0 / 500)%Z with 0%Z in C1. lia.
Qed.

(** ** Continuation lines *)

Lemma continuation_cons line fp :
  continuation (line :: fp) =
    String newline EmptyString +:+ line +:+ continuation fp.
Proof. reflexivity. Qed.

Lemma parse_loop_continuation fp : forall i p,
  Forall (fun line => rmatch (regex_date_content p) line = None) fp ->
  exists q i',
    parse_loop fp i p = (Ok q, i')
    /\ content_buffer q = content_buffer p +:+ continuation fp
    /\ date_buffer q = date_buffer p /\ same_agg q p /\ same_profile q p
    /\ chat_name q = chat_name p /\ aliases q = aliases p
    /\ regex_deleted q = regex_deleted p /\ regex_media q = regex_media p
    /\ regex_created q = regex_created p /\ regex_rename q = regex_rename p.
Proof.
  induction fp as [|line fp IH]; intros i p Hall; cbn [parse_loop].
  - exists p, i. rewrite append_nil_r. now repeat split.
  - apply Forall_cons in Hall as [Hl Hall]. unfold parse_line. rewrite Hl.
    set (p1 := if (_ =? 0)%Z then _ else _).
    assert (H1 : content_buffer p1 =
                   content_buffer p +:+ String newline EmptyString +:+ line
                 /\ date_buffer p1 = date_buffer p /\ same_agg p1 p
                 /\ same_profile p1 p /\ chat_name p1 = chat_name p
                 /\ aliases p1 = aliases p
                 /\ regex_deleted p1 = regex_deleted p
                 /\ regex_media p1 = regex_media p
                 /\ regex_created p1 = regex_created p
                 /\ regex_rename p1 = regex_rename p)
      by (unfold p1; destruct (_ =? 0)%Z; now repeat split).
    destruct H1 as (Hc & Hd & Ha & [Hr Hf] & Hn & Hal & R1 & R2 & R3 & R4).
    destruct (IH (i + 1)%Z p1) as (q & i' & Hloop & Hc' & Hd' & Ha' & [Hr' Hf'] & Hn'
                                   & Hal' & R1' & R2' & R3' & R4').
    { now rewrite Hr. }
    exists q, i'. split; [exact Hloop|].
    rewrite Hc', Hc, continuation_cons, !append_assoc.
    split; [reflexivity|]. split; [congruence|].
    split; [eapply same_agg_trans; eassumption|].
    split; [split; congruence|]. repeat split; congruence.
Qed.

(** * Properties of the patterns *)

(** ** Unfolding equations of the matcher *)

Lemma run_star_greedy_cons cs r c s st :
  run (Star cs true :: r) (String c s) st =
    if mem cs c then
      match run (Star cs true :: r) s (advance st) with
      | Some m => Some m
      | None => run r (String c s) st
      end
    else run r (String c s) st.
Proof. reflexivity. Qed.

Lemma run_star_greedy_nil cs r st :
  run (Star cs true :: r) EmptyString st = run r EmptyString st.
Proof. reflexivity. Qed.

Lemma run_star_lazy_cons cs r c s st :
  run (Star cs false :: r) (String c s) st =
    match run r (String c s) st with
    | Some m => Some m
    | None => if mem cs c then run (Star cs false :: r) s (advance st) else None
    end.
Proof. reflexivity. Qed.

Lemma run_star_lazy_nil cs r st :
  run (Star cs false :: r) EmptyString st =
    match run r EmptyString st with Some m => Some m | None => None end.
Proof. reflexivity. Qed.

Lemma mstate_eq a b c a' b' c' :
  a = a' -> b = b' -> c = c' -> MState a b c = MState a' b' c'.
Proof. now intros -> -> ->. Qed.

Ltac same_mstate :=
  f_equal; apply mstate_eq; [lia | lia | repeat (f_equal; try lia)].

(** A greedy [.*] under re.DOTALL, closing a group at the end of the
    text, takes all of the text. *)
Lemma run_rest_of_text s : forall st,
  run [Star (Dot true) true; GClose; Dollar] s st =
    Some (MState (pos st + String.length s) (gstart st)
            ((gstart st, pos st + String.length s) :: spans st)).
Proof.
  induction s as [|c s IH]; intros st.
  - rewrite run_star_greedy_nil. cbn. same_mstate.
  - rewrite run_star_greedy_cons. cbn [mem orb]. rewrite IH.
    cbn [advance pos gstart spans String.length]. same_mstate.
Qed.

Lemma run_message_tail s st :
  run [GClose; One (Lit ":"); One (Lit " "); GOpen; Star (Dot true) true;
       GClose; Dollar] s st =
    if starts_sep s
    then Some (MState (pos st + String.length s) (pos st + 2)
                 ((pos st + 2, pos st + String.length s)
                    :: (gstart st, pos st) :: spans st))
    else None.
Proof.
  destruct s as [|c1 [|c2 b]]; [reflexivity| |].
  - cbn [run starts_sep mem]. now destruct (Ascii.eqb c1 ":").
  - cbn [starts_sep].
    change (run [GClose; One (Lit ":"); One (Lit " "); GOpen;
                 Star (Dot true) true; GClose; Dollar]
              (String c1 (String c2 b)) st)
      with (if Ascii.eqb c1 ":" then
              if Ascii.eqb c2 " " then
                run [Star (Dot true) true; GClose; Dollar] b
                  (gopen (advance (advance (gclose st))))
              else None
            else None).
    destruct (Ascii.eqb c1 ":"); [|reflexivity].
    destruct (Ascii.eqb c2 " "); [|reflexivity].
    rewrite run_rest_of_text. cbn. same_mstate.
Qed.

(** The lazy group stops at the first colon followed by a space. *)
Lemma run_message_body s : forall st,
  run [Star (Dot true) false; GClose; One (Lit ":"); One (Lit " "); GOpen;
       Star (Dot true) true; GClose; Dollar] s st =
    match find_sep s with
    | Some n =>
        Some (MState (pos st + String.length s) (pos st + n + 2)
                ((pos st + n + 2, pos st + String.length s)
                   :: (gstart st, pos st + n) :: spans st))
    | None => None
    end.
Proof.
  induction s as [|c s IH]; intros st.
  - rewrite run_star_lazy_nil, run_message_tail. reflexivity.
  - rewrite run_star_lazy_cons, run_message_tail. cbn [find_sep].
    destruct (starts_sep (String c s)).
    + same_mstate.
    + cbn [mem orb]. rewrite IH. destruct (find_sep s) as [n|]; [|reflexivity].
      cbn [advance pos gstart spans String.length]. same_mstate.
Qed.

(** ** Substrings *)

Lemma append_cons c a b : String c a +:+ b = String c (a +:+ b).
Proof. reflexivity. Qed.

Lemma length_append a b :
  String.length (a +:+ b) = String.length a + String.length b.
Proof.
  induction a as [|c a IH]; [reflexivity|].
  rewrite append_cons. cbn [String.length]. now rewrite IH.
Qed.

Lemma substring_prefix a x : substring 0 (String.length a) (a +:+ x) = a.
Proof.
  induction a as [|c a IH].
  - destruct x; reflexivity.
  - rewrite append_cons. cbn [String.length substring]. now rewrite IH.
Qed.

Lemma substring_skip a x n m :
  substring (String.length a + n) m (a +:+ x) = substring n m x.
Proof.
  induction a as [|c a IH]; [reflexivity|].
  rewrite append_cons. cbn [String.length Nat.add substring]. exact IH.
Qed.

Lemma substring_all b : substring 0 (String.length b) b = b.
Proof.
  induction b as [|c b IH]; [reflexivity|].
  cbn [String.length substring]. now rewrite IH.
Qed.

(** ** The message pattern *)

Lemma find_sep_none s : find_sep s = None <-> has_sep s = false.
Proof.
  induction s as [|c s IH]; [easy|]. cbn [find_sep has_sep].
  destruct (starts_sep (String c s)); [easy|]. cbn [orb].
  rewrite <- IH. now destruct (find_sep s).
Qed.

Lemma starts_sep_append_false c a x :
  starts_sep (String c a) = false -> starts_sep (String c (a +:+ ": " +:+ x)) = false.
Proof.
  destruct a as [|c2 a]; cbn [starts_sep].
  - intros _. change (EmptyString +:+ ": " +:+ x) with (String ":" (String " " x)).
    cbn. now rewrite andb_false_r.
  - rewrite append_cons. now intros ->.
Qed.

Lemma find_sep_first a x :
  has_sep a = false -> find_sep (a +:+ ": " +:+ x) = Some (String.length a).
Proof.
  induction a as [|c a IH]; [reflexivity|].
  cbn [has_sep]. intros H. apply orb_false_iff in H as [Hs Ha].
  rewrite append_cons. cbn [find_sep String.length].
  rewrite (starts_sep_append_false c a x Hs). now rewrite (IH Ha).
Qed.

Lemma rmatch_message_run s :
  rmatch regex_message s =
    match find_sep s with
    | Some n =>
        Some [substring 0 n s;
              substring (n + 2) (String.length s - (n + 2)) s]
    | None => None
    end.
Proof.
  unfold rmatch.
  change (run regex_message s (MState 0 0 []))
    with (run [Star (Dot true) false; GClose; One (Lit ":"); One (Lit " ");
               GOpen; Star (Dot true) true; GClose; Dollar] s (MState 0 0 [])).
  rewrite run_message_body. destruct (find_sep s) as [n|]; [|reflexivity].
  cbn [spans pos rev app map Nat.add]. rewrite Nat.sub_0_r. reflexivity.
Qed.

Lemma rmatch_message_split a b :
  has_sep a = false -> rmatch regex_message (a +:+ ": " +:+ b) = Some [a; b].
Proof.
  intros Ha. rewrite rmatch_message_run, (find_sep_first a b Ha).
  rewrite substring_prefix.
  replace (String.length a + 2) with (String.length a + 2 + 0) at 1 by lia.
  rewrite length_append.
  change (": " +:+ b) with (String ":" (String " " b)).
  cbn [String.length].
  replace (String.length a + S (S (String.length b)) - (String.length a + 2))
    with (String.length b) by lia.
  rewrite <- Nat.add_assoc, substring_skip. cbn [Nat.add substring].
  now rewrite substring_all.
Qed.

Lemma rmatch_message_none s :
  has_sep s = false -> rmatch regex_message s = None.
Proof.
  intros Hs. apply find_sep_none in Hs. now rewrite rmatch_message_run, Hs.
Qed.

(** X10. The pattern of a chat message, compiled with re.DOTALL, splits the
    content of an entry at its first colon followed by a space: the author
    is the text before it, the body everything after it, later separators
    and line breaks included; content without that separator is never a
    chat message. *)
Theorem message_pattern_splits_at_first_separator (a : string) :
  has_sep a = false ->
  (forall b, rmatch regex_message (a +:+ ": " +:+ b) = Some [a; b])
  /\ rmatch regex_message a = None.
Proof.
  intros Ha. split.
  - intros b. now apply rmatch_message_split.
  - now apply rmatch_message_none.
Qed.

(** ** Classification of an entry *)

Lemma handle_entry_message p g d raw body :
  date_buffer p = Some g -> strptime g (p_date_format p) = Some d ->
  content_buffer p = raw +:+ ": " +:+ body -> has_sep raw = false ->
  handle_entry p =
    Ok (if is_placeholder p body then p
        else handle_text_message d (resolve_author (aliases p) raw) body p).
Proof.
  intros Hg Hd Hc Hraw. unfold handle_entry, is_placeholder.
  rewrite Hg, Hd, Hc, (rmatch_message_split raw body Hraw).
  cbn [group Nat.sub nth].
  destruct (matches (regex_deleted p) body); [reflexivity|].
  now destruct (matches (regex_media p) body).
Qed.

Lemma handle_entry_notice p g d :
  date_buffer p = Some g -> strptime g (p_date_format p) = Some d ->
  has_sep (content_buffer p) = false ->
  handle_entry p = Ok (handle_notice p).
Proof.
  intros Hg Hd Hc. unfold handle_entry.
  now rewrite Hg, Hd, (rmatch_message_none _ Hc).
Qed.

(** X11. An entry whose timestamp parses is a chat message exactly when its
    content has a colon followed by a space: the text before the first one
    is the raw author, the rest the body, and the message is ingested
    unless the body is a placeholder, in which case nothing changes at
    all. Without the separator the entry is treated as a notice, which
    leaves the message list and the corpus alone. *)
Theorem entry_classification (p : Parser) (g : string) (d : datetime) :
  date_buffer p = Some g ->
  strptime g (p_date_format p) = Some d ->
  (forall raw body,
     content_buffer p = raw +:+ ": " +:+ body -> has_sep raw = false ->
     handle_entry p =
       Ok (if is_placeholder p body then p
           else handle_text_message d (resolve_author (aliases p) raw) body p))
  /\ (has_sep (content_buffer p) = false ->
      handle_entry p = Ok (handle_notice p) /\ same_agg (handle_notice p) p).
Proof.
  intros Hg Hd. split.
  - intros raw body. now apply (handle_entry_message p g d).
  - intros Hc. split; [now apply (handle_entry_notice p g d)|].
    apply handle_notice_agg.
Qed.

(** ** Placeholder patterns *)

Lemma run_literal_end t : forall s st,
  is_Some (run (lits t ++ [Dollar]) s st) <-> s = t \/ s = t +:+ eol.
Proof.
  induction t as [|c t IH]; intros s st.
  - change (lits EmptyString ++ [Dollar]) with [Dollar].
    change (EmptyString +:+ eol) with eol. unfold eol.
    destruct s as [|c1 [|c2 s]]; cbn [run at_end].
    + split; [now left|now eexists].
    + destruct (Ascii.eqb_spec c1 newline) as [->|Hne].
      * split; [now right|now eexists].
      * split; [intros [? [=]]|]. intros [[=]|[= ?]]. contradiction.
    + split; [intros [? [=]]|]. now intros [[=]|[=]].
  - change (lits (String c t) ++ [Dollar])
      with (One (Lit c) :: (lits t ++ [Dollar])).
    rewrite append_cons. destruct s as [|c1 s]; cbn [run mem].
    + split; [intros [? [=]]|]. now intros [[=]|[=]].
    + destruct (Ascii.eqb_spec c1 c) as [->|Hne].
      * rewrite IH. split; intros [H|H]; [left|right|left|right];
          congruence.
      * split; [intros [? [=]]|]. intros [[= ? ?]|[= ? ?]]; contradiction.
Qed.

Lemma matches_literal t s :
  matches ([Caret] ++ lits t ++ [Dollar]) s = true <-> s = t \/ s = t +:+ eol.
Proof.
  rewrite <- (run_literal_end t s (MState 0 0 [])).
  unfold matches, rmatch.
  change (run ([Caret] ++ lits t ++ [Dollar]) s (MState 0 0 []))
    with (run (lits t ++ [Dollar]) s (MState 0 0 [])).
  destruct (run (lits t ++ [Dollar]) s (MState 0 0 [])).
  - split; [now eexists|reflexivity].
  - split; [discriminate|intros [? [=]]].
Qed.

(** X12. In the English profile a body is a placeholder exactly when it is the
    deleted-message text or the media text, alone or followed by one line
    break; a body that only contains one of them, or continues on a second
    line, is an ordinary message. *)
Theorem english_placeholders (body : string) :
  (matches (deleted en) body = true <->
   body = "This message was deleted"
   \/ body = "This message was deleted" +:+ eol)
  /\ (matches (media en) body = true <->
      body = "<Media omitted>" \/ body = "<Media omitted>" +:+ eol).
Proof.
  split.
  - exact (matches_literal "This message was deleted" body).
  - exact (matches_literal "<Media omitted>" body).
Qed.

(** ** An entry of several lines *)

(** X13. An entry-start line followed by continuation lines is one chat
    message: its body is the rest of the first line after the separator,
    then each continuation line after a line break, terminators of the
    continuation lines included, and that is the body whose length and
    words are recorded. *)
Theorem multi_line_message (p : Parser) (line : string) (conts gs : list string)
    (d : datetime) (raw b0 : string) :
  date_buffer p = None ->
  rmatch (regex_date_content p) line = Some gs ->
  Forall (fun l => rmatch (regex_date_content p) l = None) conts ->
  strptime (group 1 gs) (p_date_format p) = Some d ->
  group 2 gs = raw +:+ ": " +:+ b0 ->
  has_sep raw = false ->
  let body := b0 +:+ continuation conts in
  is_placeholder p body = false ->
  exists q,
    parse_file (line :: conts) p = Ok q
    /\ same_agg q
         (handle_text_message d (resolve_author (aliases p) raw) body p).
Proof.
  intros Hnone Hline Hconts Hd Hg2 Hraw body Hph.
  unfold parse_file. cbn [parse_loop]. unfold parse_line at 1.
  simpl (regex_date_content _). simpl (date_buffer _).
  rewrite Hline, Hnone. cbn [truthy bind].
  change ((0 + 1) mod 500 =? 0)%Z with false. cbv iota.
  set (p1 := set_buffers _ _ _).
  destruct (parse_loop_continuation conts (0 + 1)%Z p1 Hconts)
    as (q1 & i1 & -> & Hc & Hdb & Ha & [_ Hf] & _ & Hal & R1 & R2 & _).
  cbn [bind].
  assert (He : handle_entry q1 =
               Ok (if is_placeholder q1 body then q1
                   else handle_text_message d
                          (resolve_author (aliases q1) raw) body q1)).
  { apply (handle_entry_message q1 (group 1 gs)).
    - rewrite Hdb. reflexivity.
    - rewrite Hf. exact Hd.
    - rewrite Hc. simpl (content_buffer p1). rewrite Hg2.
      unfold body. now rewrite !append_assoc.
    - exact Hraw. }
  assert (Hph1 : is_placeholder q1 body = false).
  { unfold is_placeholder in *. now rewrite R1, R2. }
  rewrite He, Hph1. cbn [bind]. eexists. split; [reflexivity|].
  rewrite Hal. simpl (aliases p1).
  apply (same_agg_trans _ (handle_text_message d
                             (resolve_author (aliases p) raw) body q1)).
  - now repeat split.
  - apply same_agg_handle. eapply same_agg_trans; [exact Ha|]. now repeat split.
Qed.

(** * Properties of the timestamps *)

(** ** What [strptime] accepts *)

Lemma strp_run_space fmt c s acc :
  strp_run (DSpace :: fmt) (String c s) acc =
    if is_space c then
      match strp_run (DSpace :: fmt) s acc with
      | Some r => Some r
      | None => strp_run fmt s acc
      end
    else None.
Proof. reflexivity. Qed.

Lemma is_digit_value c : is_digit c = true -> (0 <= digit_value c <= 9)%Z.
Proof.
  unfold is_digit, in_range, digit_value. intros H.
  apply andb_true_iff in H as [H1 H2].
  apply N.leb_le in H1, H2. lia.
Qed.

Lemma int_of_two c1 c2 :
  is_digit c1 = true -> is_digit c2 = true ->
  int_of (String c1 (String c2 EmptyString)) =
    (10 * digit_value c1 + digit_value c2)%Z.
Proof.
  intros H1 H2. unfold int_of, digit_value. cbn [int_digits].
  rewrite H1, H2. lia.
Qed.

Lemma int_of_one c :
  is_digit c = true -> int_of (String c EmptyString) = digit_value c.
Proof.
  intros H. unfold int_of, digit_value. cbn [int_digits]. rewrite H. lia.
Qed.

Ltac one_of_cases H :=
  unfold one_of in H; cbn [contains_char] in H;
  repeat (apply orb_true_iff in H as [H|H];
          [apply Ascii.eqb_eq in H; subst;
           split; [reflexivity | vm_compute; split; discriminate] |]);
  discriminate.

Lemma one_of_2 c :
  one_of "2" c = true -> is_digit c = true /\ (2 <= digit_value c <= 2)%Z.
Proof. intros H. one_of_cases H. Qed.

Lemma one_of_0123 c :
  one_of "0123" c = true -> is_digit c = true /\ (0 <= digit_value c <= 3)%Z.
Proof. intros H. one_of_cases H. Qed.

Lemma one_of_01 c :
  one_of "01" c = true -> is_digit c = true /\ (0 <= digit_value c <= 1)%Z.
Proof. intros H. one_of_cases H. Qed.

Lemma one_of_012345 c :
  one_of "012345" c = true -> is_digit c = true /\ (0 <= digit_value c <= 5)%Z.
Proof. intros H. one_of_cases H. Qed.

Lemma take_alt_two f1 f2 s t rest :
  take_alt [f1; f2] s = Some (t, rest) ->
  exists c1 c2, t = String c1 (String c2 EmptyString)
                /\ f1 c1 = true /\ f2 c2 = true.
Proof.
  destruct s as [|c1 [|c2 s]]; cbn [take_alt]; [discriminate| |].
  - destruct (f1 c1); discriminate.
  - destruct (f1 c1) eqn:H1; [|discriminate].
    destruct (f2 c2) eqn:H2; [|discriminate].
    intros [= <- <-]. now exists c1, c2.
Qed.

Lemma take_alt_one f s t rest :
  take_alt [f] s = Some (t, rest) ->
  exists c, t = String c EmptyString /\ f c = true.
Proof.
  destruct s as [|c s]; cbn [take_alt]; [discriminate|].
  destruct (f c) eqn:H; [|discriminate]. intros [= <- <-]. now exists c.
Qed.

Lemma take_alt_field_ok d alt s t rest :
  In alt (alternatives d) -> take_alt alt s = Some (t, rest) ->
  field_ok (d, int_of t).
Proof.
  destruct d; unfold field_ok; cbn [fst snd alternatives In]; try easy.
  - intros [<-|[<-|[<-|[]]]] Ht.
    + apply take_alt_two in Ht as (c1 & c2 & -> & H1 & H2).
      apply one_of_2 in H1 as [D1 R1]. apply one_of_0123 in H2 as [D2 R2].
      rewrite (int_of_two _ _ D1 D2). lia.
    + apply take_alt_two in Ht as (c1 & c2 & -> & H1 & H2).
      apply one_of_01 in H1 as [D1 R1]. pose proof (is_digit_value _ H2).
      rewrite (int_of_two _ _ D1 H2). lia.
    + apply take_alt_one in Ht as (c & -> & H).
      pose proof (is_digit_value _ H). rewrite (int_of_one _ H). lia.
  - intros [<-|[<-|[]]] Ht.
    + apply take_alt_two in Ht as (c1 & c2 & -> & H1 & H2).
      apply one_of_012345 in H1 as [D1 R1]. pose proof (is_digit_value _ H2).
      rewrite (int_of_two _ _ D1 H2). lia.
    + apply take_alt_one in Ht as (c & -> & H).
      pose proof (is_digit_value _ H). rewrite (int_of_one _ H). lia.
Qed.

Lemma fold_alternatives d fmt s acc r alts :
  fold_right
    (fun alt (otherwise : option (list (directive * Z) * string)) =>
       match take_alt alt s with
       | Some (t, rest) =>
           match strp_run fmt rest ((d, int_of t) :: acc) with
           | Some r => Some r
           | None => otherwise
           end
       | None => otherwise
       end) None alts = Some r ->
  exists alt t rest,
    In alt alts /\ take_alt alt s = Some (t, rest)
    /\ strp_run fmt rest ((d, int_of t) :: acc) = Some r.
Proof.
  induction alts as [|alt alts IH]; cbn [fold_right]; [discriminate|].
  destruct (take_alt alt s) as [[t rest]|] eqn:Ht.
  - destruct (strp_run fmt rest ((d, int_of t) :: acc)) as [r'|] eqn:Hr.
    + intros [= <-]. exists alt, t, rest. repeat split; [now left|done..].
    + intros H. destruct (IH H) as (a' & t' & rest' & Hin & H1 & H2).
      exists a', t', rest'. repeat split; [now right|done..].
  - intros H. destruct (IH H) as (a' & t' & rest' & Hin & H1 & H2).
    exists a', t', rest'. repeat split; [now right|done..].
Qed.

Lemma strp_run_fields_ok fmt : forall s acc fs rest,
  strp_run fmt s acc = Some (fs, rest) ->
  Forall field_ok acc -> Forall field_ok fs.
Proof.
  induction fmt as [|x fmt IH]; intros s acc fs rest.
  - cbn [strp_run]. now intros [= <- _].
  - assert (Halt : forall d,
              (exists alt t rest',
                 In alt (alternatives d) /\ take_alt alt s = Some (t, rest')
                 /\ strp_run fmt rest' ((d, int_of t) :: acc) = Some (fs, rest)) ->
              Forall field_ok acc -> Forall field_ok fs).
    { intros d (alt & t & rest' & Hin & Ht & Hr) Hacc.
      apply (IH _ _ _ _ Hr). constructor; [|exact Hacc].
      eapply take_alt_field_ok; eassumption. }
    destruct x as [| | | | | |c|];
      try (match goal with
           | |- strp_run (?d :: _) _ _ = _ -> _ =>
               intros H; apply (Halt d);
               apply (fold_alternatives d fmt s acc (fs, rest) (alternatives d));
               exact H
           end).
    + cbn [strp_run]. destruct s as [|c' s]; [discriminate|].
      destruct (Ascii.eqb c c'); [apply IH|discriminate].
    + clear Halt. revert acc. induction s as [|c s IHs]; intros acc.
      * discriminate.
      * rewrite strp_run_space. destruct (is_space c); [|discriminate].
        destruct (strp_run (DSpace :: fmt) s acc) as [r|] eqn:Hr.
        -- intros [= ->]. now apply IHs.
        -- apply IH.
Qed.

Lemma field_in_range d default fs :
  Forall field_ok fs -> field_ok (d, default) -> field_ok (d, field d default fs).
Proof.
  intros Hall Hdef. unfold field.
  destruct (find (fun x => directive_eqb d (fst x)) fs) as [[d' v]|] eqn:Hf;
    [|exact Hdef].
  apply find_some in Hf as [Hin Heq]. cbn [fst] in Heq.
  rewrite Forall_forall in Hall. apply list_elem_of_In in Hin.
  specialize (Hall _ Hin). unfold field_ok in *. cbn [fst snd] in *.
  destruct d, d'; try discriminate; exact Hall.
Qed.

Lemma strptime_valid s fmt d : strptime s fmt = Some d -> valid_datetime d.
Proof.
  unfold strptime.
  destruct (strp_run fmt s []) as [[fs [|? ?]]|] eqn:Hrun; try discriminate.
  apply strp_run_fields_ok in Hrun; [|constructor].
  match goal with |- context [valid_date ?y ?m ?dd] =>
    destruct (valid_date y m dd) eqn:Hv end; [|discriminate].
  intros [= <-]. unfold valid_datetime. cbn [year month day hour minute second microsecond].
  split; [exact Hv|].
  split; [exact (field_in_range DH 0%Z fs Hrun ltac:(unfold field_ok; simpl; lia))|].
  split; [exact (field_in_range DM 0%Z fs Hrun ltac:(unfold field_ok; simpl; lia))|].
  now split.
Qed.

(** ** The timestamps of the messages *)

Lemma entry_dates_valid re fmt fp : Forall valid_datetime (entry_dates re fmt fp).
Proof.
  apply Forall_forall. intros d Hin. unfold entry_dates in Hin.
  apply list_elem_of_omap in Hin as (line & _ & Hd).
  destruct (rmatch re line); [|discriminate]. eapply strptime_valid, Hd.
Qed.

Lemma pending_valid p : Forall valid_datetime (pending p).
Proof.
  unfold pending. destruct (date_buffer p) as [g|]; [|constructor].
  destruct (strptime g (p_date_format p)) as [d|] eqn:Hd; [|constructor].
  apply Forall_singleton. eapply strptime_valid, Hd.
Qed.

Lemma Forall_sublist_of {A} (P : A -> Prop) (l k : list A) :
  l `sublist_of` k -> Forall P k -> Forall P l.
Proof.
  intros Hs Hk. apply Forall_forall. intros x Hx.
  rewrite Forall_forall in Hk. apply Hk. eapply elem_of_sublist; eassumption.
Qed.

Lemma Forall_map_date (P : datetime -> Prop) (ms : list Message) :
  Forall P (map date ms) <-> Forall (fun m => P (date m)) ms.
Proof.
  induction ms as [|m ms IH]; simpl; [split; constructor|].
  rewrite !Forall_cons, IH. reflexivity.
Qed.

Lemma run_dates_valid fp p q :
  Forall (fun m => valid_datetime (date m)) (msgs p) ->
  parse_file fp p = Ok q ->
  Forall (fun m => valid_datetime (date m)) (msgs q).
Proof.
  intros Hp Hrun.
  apply parse_file_calls in Hrun as (calls & (_ & _ & _ & Hm & _) & Hs).
  rewrite Hm. apply Forall_map_date.
  apply (Forall_sublist_of _ _ _ (ingest_all_dates calls p)).
  apply Forall_app. split; [now apply Forall_map_date|].
  apply (Forall_sublist_of _ _ _ Hs), Forall_app.
  split; [apply pending_valid|apply entry_dates_valid].
Qed.

(** X14. Every timestamp in the message list comes from [strptime]: after a
    run the records carry calendar dates that exist, hours below 24,
    minutes below 60, and no seconds. *)
Theorem message_timestamps_are_valid (fp : list string) (p q : Parser) :
  Forall (fun m => valid_datetime (date m)) (msgs p) ->
  parse_file fp p = Ok q ->
  Forall (fun m => valid_datetime (date m)) (msgs q)
  /\ (forall g d, strptime g (p_date_format q) = Some d -> valid_datetime d).
Proof.
  intros Hp Hrun. split; [now apply (run_dates_valid fp p q)|].
  intros g d Hs. eapply strptime_valid, Hs.
Qed.

(** ** The heat map *)

Lemma sum_map_add {A} (f g : A -> nat) (l : list A) :
  foldr Nat.add 0 (map (fun x => f x + g x) l) =
    foldr Nat.add 0 (map f l) + foldr Nat.add 0 (map g l).
Proof. induction l as [|x l IH]; simpl; [reflexivity|]. rewrite IH. lia. Qed.

Lemma sum_map_ext {A} (f g : A -> nat) (l : list A) :
  (forall x, f x = g x) ->
  foldr Nat.add 0 (map f l) = foldr Nat.add 0 (map g l).
Proof. intros H. induction l as [|x l IH]; simpl; [reflexivity|]. now rewrite H, IH. Qed.

Lemma sum_indicator (k n : nat) : forall a,
  foldr Nat.add 0 (map (fun x => if decide (k = x) then 1 else 0) (seq a n)) =
    if decide (a <= k < a + n) then 1 else 0.
Proof.
  induction n as [|n IH]; intros a; simpl.
  - destruct (decide (a <= k < a + 0)); [lia|reflexivity].
  - rewrite IH.
    destruct (decide (k = a)), (decide (S a <= k < S a + n)),
      (decide (a <= k < a + S n)); lia.
Qed.

Lemma heat_count_cons m ms wd h :
  heat_count (m :: ms) wd h =
    (if decide (Z.to_nat (weekday (date m)) = wd) then
       if decide (Z.to_nat (hour (date m)) = h) then 1 else 0
     else 0)
    + heat_count ms wd h.
Proof.
  unfold heat_count. rewrite filter_cons.
  destruct (decide (Z.to_nat (weekday (date m)) = wd));
    destruct (decide (Z.to_nat (hour (date m)) = h));
    destruct (decide (_ /\ _)) as [H|H]; simpl; try reflexivity; exfalso; tauto.
Qed.

Lemma weekday_range d : (0 <= weekday d < 7)%Z.
Proof. unfold weekday. apply Z.mod_pos_bound. lia. Qed.

Lemma heat_total_cons m ms :
  (0 <= hour (date m) < 24)%Z ->
  heat_total (m :: ms) = 1 + heat_total ms.
Proof.
  intros Hh. unfold heat_total.
  rewrite (sum_map_ext _
             (fun wd => (if decide (Z.to_nat (weekday (date m)) = wd) then 1 else 0)
                        + foldr Nat.add 0 (map (heat_count ms wd) (seq 0 24)))).
  - rewrite sum_map_add, sum_indicator.
    pose proof (weekday_range (date m)).
    destruct (decide (0 <= Z.to_nat (weekday (date m)) < 0 + 7)); [reflexivity|lia].
  - intros wd.
    rewrite (sum_map_ext _ (fun h => (if decide (Z.to_nat (weekday (date m)) = wd)
                                      then if decide (Z.to_nat (hour (date m)) = h)
                                           then 1 else 0
                                      else 0) + heat_count ms wd h))
      by (intros h; apply heat_count_cons).
    rewrite sum_map_add. f_equal.
    destruct (decide (Z.to_nat (weekday (date m)) = wd)).
    + rewrite sum_indicator.
      destruct (decide (0 <= Z.to_nat (hour (date m)) < 0 + 24)); [reflexivity|lia].
    + induction (seq 0 24) as [|x l IH]; [reflexivity|]. simpl. exact IH.
Qed.

Lemma heat_total_length ms :
  Forall (fun m => valid_datetime (date m)) ms -> heat_total ms = length ms.
Proof.
  induction 1 as [|m ms Hm _ IH]; [reflexivity|].
  rewrite heat_total_cons, IH; [reflexivity|].
  now destruct Hm as (_ & Hh & _).
Qed.

(** X15. After a run every record of the message list falls in exactly one
    cell of the heat map's grid of 7 weekdays by 24 hours, so the cells add
    up to the number of records, and the weekday of every record has a
    label in the [weekdays] table. *)
Theorem heat_map_counts_every_record (fp : list string) (p q : Parser) :
  Forall (fun m => valid_datetime (date m)) (msgs p) ->
  parse_file fp p = Ok q ->
  heat_total (msgs q) = length (msgs q)
  /\ Forall (fun m => is_Some (day_name (date m))) (msgs q).
Proof.
  intros Hp Hrun.
  assert (Hq : Forall (fun m => valid_datetime (date m)) (msgs q)).
  { now apply (run_dates_valid fp p q). }
  split; [now apply heat_total_length|].
  apply Forall_forall. intros m _. unfold day_name.
  apply lookup_lt_is_Some. pose proof (weekday_range (date m)).
  change (length weekdays) with 7. lia.
Qed.

(** ** The prefix of the chart titles *)

Lemma take_chars_length n s : String.length (take_chars n s) <= n.
Proof.
  revert s. induction n as [|n IH]; intros [|c s]; cbn [take_chars String.length]; try lia.
  specialize (IH s). lia.
Qed.

Lemma take_drop_chars n s : take_chars n s +:+ drop_chars n s = s.
Proof.
  revert s. induction n as [|n IH]; intros [|c s]; cbn [take_chars drop_chars];
    try reflexivity.
  rewrite append_cons. now rewrite IH.
Qed.

Lemma take_chars_short n s : String.length s <= n -> take_chars n s = s.
Proof.
  revert s. induction n as [|n IH]; intros [|c s]; cbn [take_chars String.length];
    try reflexivity; try lia.
  intros H. rewrite IH; [reflexivity|lia].
Qed.

Lemma drop_chars_short n s : String.length s <= n -> drop_chars n s = EmptyString.
Proof.
  revert s. induction n as [|n IH]; intros [|c s]; cbn [drop_chars String.length];
    try reflexivity; try lia.
  intros H. apply IH. lia.
Qed.

Lemma drop_chars_long n s : n < String.length s -> drop_chars n s <> EmptyString.
Proof.
  revert s. induction n as [|n IH]; intros [|c s]; cbn [drop_chars String.length];
    try lia; try discriminate.
  intros H. apply IH. lia.
Qed.

(** X16. The prefix of the chart titles is empty when no title was set (or an
    empty one); otherwise it quotes the title, whole when it has at most
    20 characters and cut to its first 20 characters followed by three
    dots when it is longer, so the prefix never exceeds 27 characters. *)
Theorem title_prefix_is_bounded (name : string) :
  title_prefix None = EmptyString
  /\ title_prefix (Some EmptyString) = EmptyString
  /\ String.length (title_prefix (Some name)) <= 27
  /\ (name <> EmptyString -> String.length name <= 20 ->
      title_prefix (Some name) = quoted name +:+ ": ")
  /\ (20 < String.length name ->
      title_prefix (Some name) = quoted (take_chars 20 name +:+ "...") +:+ ": ").
Proof.
  split; [reflexivity|]. split; [reflexivity|].
  split; [|split].
  - destruct name as [|c name]; [simpl; lia|]. unfold title_prefix.
    rewrite !length_append.
    pose proof (take_chars_length 20 (String c name)).
    set (t := take_chars 20 (String c name)) in *.
    destruct (drop_chars 20 (String c name)); cbn [String.length]; lia.
  - intros Hne Hlen. destruct name as [|c name]; [contradiction|].
    unfold title_prefix, quoted.
    rewrite (take_chars_short 20 _ Hlen), (drop_chars_short 20 _ Hlen).
    rewrite !append_cons. change (EmptyString +:+ String c name) with (String c name).
    now rewrite !append_assoc.
  - intros Hlen. destruct name as [|c name]; [simpl in Hlen; lia|].
    unfold title_prefix, quoted.
    pose proof (drop_chars_long 20 _ Hlen) as Hd.
    destruct (drop_chars 20 (String c name)); [contradiction|].
    rewrite !append_cons. change (EmptyString +:+ ?x) with x.
    now rewrite !append_assoc.
Qed.

(** * The entry-start pattern of the English profile *)

Lemma run_shape cs r : forall s st st',
  run (map One cs ++ r) s st = Some st' ->
  exists pre rest,
    s = pre +:+ rest /\ has_shape cs pre = true
    /\ run r rest (MState (pos st + length cs) (gstart st) (spans st)) = Some st'.
Proof.
  induction cs as [|c cs IH]; intros s st st'.
  - cbn [map app length]. intros H. exists EmptyString, s.
    split; [reflexivity|]. split; [reflexivity|].
    rewrite Nat.add_0_r. now destruct st.
  - cbn [map app run length]. destruct s as [|x s]; [discriminate|].
    destruct (mem c x) eqn:Hx; [|discriminate]. intros H.
    apply IH in H as (pre & rest & -> & Hs & Hr).
    exists (String x pre), rest. split; [reflexivity|].
    split; [cbn [has_shape]; now rewrite Hx, Hs|].
    cbn [advance pos gstart spans] in Hr.
    now replace (pos st + S (length cs)) with (S (pos st) + length cs) by lia.
Qed.

Lemma run_shape_complete cs r : forall pre rest st,
  has_shape cs pre = true ->
  run (map One cs ++ r) (pre +:+ rest) st =
    run r rest (MState (pos st + length cs) (gstart st) (spans st)).
Proof.
  induction cs as [|c cs IH]; intros pre rest st.
  - destruct pre; [|discriminate]. intros _. cbn [map app length].
    rewrite Nat.add_0_r. now destruct st.
  - destruct pre as [|x pre]; [discriminate|]. cbn [has_shape].
    intros H. apply andb_true_iff in H as [Hx Hs].
    rewrite append_cons. cbn [map app run length]. rewrite Hx, (IH _ _ _ Hs).
    cbn [advance pos gstart spans].
    now replace (pos st + S (length cs)) with (S (pos st) + length cs) by lia.
Qed.

Lemma has_shape_length cs : forall s,
  has_shape cs s = true -> String.length s = length cs.
Proof.
  induction cs as [|c cs IH]; intros [|x s]; cbn [has_shape]; try discriminate.
  - reflexivity.
  - intros H. apply andb_true_iff in H as [_ H]. cbn [String.length length].
    now rewrite (IH _ H).
Qed.

(** A greedy [.*] without re.DOTALL, closing a group before [$], takes a
    line without its terminator. *)
Lemma run_rest_of_line s : forall st st',
  run [Star (Dot false) true; GClose; Dollar] s st = Some st' ->
  exists b,
    (s = b \/ s = b +:+ eol) /\ contains_char newline b = false
    /\ st' = MState (pos st + String.length b) (gstart st)
               ((gstart st, pos st + String.length b) :: spans st).
Proof.
  induction s as [|c s IH]; intros st st'.
  - rewrite run_star_greedy_nil. cbn. intros [= <-]. exists EmptyString.
    split; [now left|]. split; [reflexivity|]. cbn. same_mstate.
  - rewrite run_star_greedy_cons. cbn [mem orb].
    destruct (Ascii.eqb_spec c newline) as [->|Hne]; cbn [negb].
    + cbn [run at_end]. destruct s; [|discriminate].
      rewrite Ascii.eqb_refl. intros [= <-]. exists EmptyString.
      split; [now right|]. split; [reflexivity|]. cbn.
      apply mstate_eq; [lia|reflexivity|]. repeat (f_equal; try lia).
    + destruct (run [Star (Dot false) true; GClose; Dollar] s (advance st))
        as [m|] eqn:Hr.
      * intros [= <-]. apply IH in Hr as (b & Hb & Hn & ->).
        exists (String c b). split.
        { destruct Hb as [->| ->]; [now left|now right]. }
        split.
        { cbn [contains_char]. rewrite Hn, orb_false_r.
          rewrite Ascii.eqb_sym. now apply Ascii.eqb_neq. }
        cbn [advance pos gstart spans String.length].
        apply mstate_eq; [lia|reflexivity|]. repeat (f_equal; try lia).
      * cbn [run at_end]. destruct s.
        -- destruct (Ascii.eqb_spec c newline); [contradiction|discriminate].
        -- discriminate.
Qed.

Lemma run_rest_of_line_complete b : forall st tail,
  contains_char newline b = false ->
  tail = EmptyString \/ tail = eol ->
  run [Star (Dot false) true; GClose; Dollar] (b +:+ tail) st =
    Some (MState (pos st + String.length b) (gstart st)
            ((gstart st, pos st + String.length b) :: spans st)).
Proof.
  induction b as [|c b IH]; intros st tail Hn Ht.
  - change (EmptyString +:+ tail) with tail.
    destruct Ht as [->| ->]; cbn; same_mstate.
  - cbn [contains_char] in Hn. apply orb_false_iff in Hn as [Hc Hn].
    rewrite append_cons, run_star_greedy_cons. cbn [mem orb].
    rewrite Ascii.eqb_sym, Hc. cbn [negb]. rewrite (IH _ _ Hn Ht).
    cbn [advance pos gstart spans String.length]. same_mstate.
Qed.

Lemma has_shape_dash s : has_shape dash_shape s = true -> s = " - ".
Proof.
  destruct s as [|c1 [|c2 [|c3 [|c4 s]]]]; cbn [has_shape dash_shape mem];
    try discriminate; rewrite ?andb_false_r; try discriminate.
  rewrite andb_true_r. intros H.
  apply andb_true_iff in H as [H1 H]. apply andb_true_iff in H as [H2 H3].
  apply Ascii.eqb_eq in H1, H2, H3. now subst.
Qed.

Lemma date_content_en_shape :
  date_content en =
    Caret :: GOpen :: map One stamp_shape
      ++ GClose :: map One dash_shape
      ++ [GOpen; Star (Dot false) true; GClose; Dollar].
Proof. reflexivity. Qed.

Lemma english_entry_start_run line :
  run (date_content en) line (MState 0 0 []) =
    run (map One stamp_shape
           ++ GClose :: map One dash_shape
           ++ [GOpen; Star (Dot false) true; GClose; Dollar])
      line (MState 0 0 []).
Proof. rewrite date_content_en_shape. reflexivity. Qed.

Lemma english_entry_start_sound line gs :
  rmatch (date_content en) line = Some gs ->
  exists g1 g2,
    gs = [g1; g2] /\ has_shape stamp_shape g1 = true
    /\ contains_char newline g2 = false
    /\ (line = g1 +:+ " - " +:+ g2 \/ line = g1 +:+ " - " +:+ g2 +:+ eol).
Proof.
  unfold rmatch. rewrite english_entry_start_run.
  destruct (run _ line (MState 0 0 [])) as [st'|] eqn:Hrun; [|discriminate].
  apply run_shape in Hrun as (g1 & rest1 & -> & Hg1 & Hrun).
  change (run (map One dash_shape
                 ++ [GOpen; Star (Dot false) true; GClose; Dollar]) rest1
            (MState 17 0 [(0, 17)]) = Some st') in Hrun.
  apply run_shape in Hrun as (dash & rest2 & -> & Hdash & Hrun).
  apply has_shape_dash in Hdash as ->.
  change (run [Star (Dot false) true; GClose; Dollar] rest2
            (MState 20 20 [(0, 17)]) = Some st') in Hrun.
  apply run_rest_of_line in Hrun as (g2 & Hrest & Hn & ->).
  intros [= <-]. exists g1, g2.
  pose proof (has_shape_length _ _ Hg1) as Hlen.
  change (length stamp_shape) with 17 in Hlen.
  assert (H1 : substring 0 17 (g1 +:+ " - " +:+ rest2) = g1).
  { rewrite <- Hlen. apply substring_prefix. }
  assert (H2 : substring 20 (String.length g2) (g1 +:+ " - " +:+ rest2) = g2).
  { rewrite <- append_assoc.
    replace 20 with (String.length (g1 +:+ " - ") + 0)
      by (rewrite length_append, Hlen; reflexivity).
    rewrite substring_skip.
    destruct Hrest as [->| ->]; [apply substring_all|apply substring_prefix]. }
  cbn [spans pos gstart rev app map].
  try replace (17 - 0) with 17 by lia.
  try replace (20 + String.length g2 - 20) with (String.length g2) by lia.
  rewrite ?Nat.sub_0_r.
  rewrite H1, H2. split; [reflexivity|]. split; [exact Hg1|].
  split; [exact Hn|]. destruct Hrest as [->| ->]; [now left|now right].
Qed.

Lemma english_entry_start_complete g1 g2 tail :
  has_shape stamp_shape g1 = true ->
  contains_char newline g2 = false ->
  tail = EmptyString \/ tail = eol ->
  rmatch (date_content en) (g1 +:+ " - " +:+ g2 +:+ tail) = Some [g1; g2].
Proof.
  intros Hg1 Hn Ht. unfold rmatch. rewrite english_entry_start_run.
  rewrite (run_shape_complete _ _ _ _ _ Hg1).
  match goal with
  | |- context [run ?r ?s ?st] =>
      change (run r s st)
        with (run [Star (Dot false) true; GClose; Dollar] (g2 +:+ tail)
                (MState 20 20 [(0, 17)]))
  end.
  rewrite (run_rest_of_line_complete _ _ _ Hn Ht).
  pose proof (has_shape_length _ _ Hg1) as Hlen.
  change (length stamp_shape) with 17 in Hlen.
  cbn [spans pos gstart rev app map].
  try replace (17 - 0) with 17 by lia.
  try replace (20 + String.length g2 - 20) with (String.length g2) by lia.
  rewrite ?Nat.sub_0_r.
  rewrite <- Hlen at 1. rewrite substring_prefix.
  rewrite <- (append_assoc g1 " - ").
  replace 20 with (String.length (g1 +:+ " - ") + 0)
    by (rewrite length_append, Hlen; reflexivity).
  rewrite substring_skip, substring_prefix. reflexivity.
Qed.

(** X17. In the English profile a line starts an entry exactly when it is a
    timestamp of the shape DD/MM/YYYY, HH:MM (17 characters), the
    separator [ - ], and content without a line break, optionally ended by
    one line break; the timestamp and the content are what the parser
    buffers, so the buffered timestamp is never empty. *)
Theorem english_entry_start (line : string) (gs : list string) :
  rmatch (date_content en) line = Some gs <->
  exists g1 g2,
    gs = [g1; g2] /\ has_shape stamp_shape g1 = true
    /\ String.length g1 = 17
    /\ contains_char newline g2 = false
    /\ (line = g1 +:+ " - " +:+ g2 \/ line = g1 +:+ " - " +:+ g2 +:+ eol).
Proof.
  split.
  - intros H. apply english_entry_start_sound in H as (g1 & g2 & -> & Hs & Hn & Hl).
    exists g1, g2. repeat split; try assumption.
    exact (has_shape_length _ _ Hs).
  - intros (g1 & g2 & -> & Hs & _ & Hn & [->| ->]).
    + rewrite <- (append_nil_r g2).
      rewrite (append_nil_r g2) at 2.
      apply english_entry_start_complete; auto.
    + apply english_entry_start_complete; auto.
Qed.

(** * Further concrete runs *)

Lemma records_are_final_witness :
  let p := handle_text_message jan1_1000 "Alice" "Hello" p_en in
  exists m',
    msgs (ingest_all [(jan1_1001, "Alice", "How are you?");
                      (jan2_1005, "Bob", "Fine?")] p) !! 0 = Some m'
    /\ grown_from (Msg "Alice" jan1_1000 5 1 true) m'.
Proof.
  cbv zeta.
  destruct (records_are_final
              (handle_text_message jan1_1000 "Alice" "Hello" p_en) 0
              (Msg "Alice" jan1_1000 5 1 true) eq_refl) as [H _].
  destruct (H [(jan1_1001, "Alice", "How are you?"); (jan2_1005, "Bob", "Fine?")])
    as (m' & Hm & Hg & _).
  exists m'. split; [exact Hm|exact Hg].
Defined.

Lemma first_message_is_initiator_witness :
  exists m,
    head (msgs (ingest_all scenario_calls p_en)) = Some m
    /\ member m = "Alice" /\ initiator m = true.
Proof.
  destruct (first_message_is_initiator p_en eq_refl) as [H _].
  destruct (H jan1_1000 "Alice" "Hello"
              [(jan1_1001, "Alice", "How are you?");
               (jan2_1005, "Bob", "I am fine, thanks for asking?")])
    as (m & Hh & Ha & _ & Hi).
  exists m. split; [exact Hh|]. split; [exact Ha|exact Hi].
Defined.

Lemma initiator_chart_without_multipart_witness :
  exists q,
    parse_file scenario p_en_single = Ok q
    /\ init_per_member (msgs q) "Alice" = count_per_member (msgs q) "Alice".
Proof.
  assert (H : exists q, parse_file scenario p_en_single = Ok q)
    by (eexists; vm_compute; reflexivity).
  destruct H as [q H]. exists q. split; [exact H|].
  exact (initiator_chart_without_multipart p_en_single eq_refl eq_refl
           scenario q "Alice" H).
Defined.

Lemma fatal_runs_witness :
  exists c q,
    parse_file ["31/02/2020, 10:00 - Alice: Hello" +:+ eol] p_en = Exit c q
    /\ c = 1%Z /\ fatal_output (out q).
Proof.
  assert (H : exists c q,
            parse_file ["31/02/2020, 10:00 - Alice: Hello" +:+ eol] p_en = Exit c q)
    by (do 2 eexists; vm_compute; reflexivity).
  destruct H as (c & q & H). exists c, q. split; [exact H|].
  exact (fatal_runs _ _ _ _ H).
Defined.

Lemma run_completes_witness : exists q, parse_file scenario p_en = Ok q.
Proof.
  destruct (run_completes scenario p_en eq_refl) as [_ H].
  apply H.
  - discriminate.
  - repeat constructor; eexists; vm_compute; reflexivity.
Defined.

Lemma run_output_witness :
  exists q mid,
    parse_file scenario p_en = Ok q
    /\ out q = out p_en ++ [Stdout [VStr "Parsing file..."]] ++ mid
                 ++ [summary_line 3 (length (msgs q))].
Proof.
  assert (H : exists q, parse_file scenario p_en = Ok q)
    by (eexists; vm_compute; reflexivity).
  destruct H as [q H].
  destruct (run_output scenario p_en q H) as (mid & Ho & _).
  exists q, mid. split; [exact H|exact Ho].
Defined.

Lemma message_pattern_splits_at_first_separator_witness :
  rmatch regex_message ("Alice" +:+ ": " +:+ "see: this") = Some ["Alice"; "see: this"]
  /\ rmatch regex_message "Alice" = None.
Proof.
  destruct (message_pattern_splits_at_first_separator "Alice" eq_refl) as [H1 H2].
  split; [exact (H1 "see: this")|exact H2].
Defined.

Lemma entry_classification_witness :
  let p := set_buffers (Some "01/01/2020, 10:00") "Alice: <Media omitted>" p_en in
  handle_entry p = Ok p.
Proof.
  cbv zeta.
  destruct (entry_classification
              (set_buffers (Some "01/01/2020, 10:00") "Alice: <Media omitted>" p_en)
              "01/01/2020, 10:00" jan1_1000 eq_refl eq_refl) as [H _].
  exact (H "Alice" "<Media omitted>" eq_refl eq_refl).
Defined.

Lemma multi_line_message_witness :
  exists q,
    parse_file ["01/01/2020, 10:00 - Alice: Hello" +:+ eol; "world" +:+ eol] p_en = Ok q
    /\ same_agg q
         (handle_text_message jan1_1000 "Alice"
            ("Hello" +:+ eol +:+ "world" +:+ eol) p_en).
Proof.
  apply (multi_line_message p_en ("01/01/2020, 10:00 - Alice: Hello" +:+ eol)
           ["world" +:+ eol] ["01/01/2020, 10:00"; "Alice: Hello"]
           jan1_1000 "Alice" "Hello"); try reflexivity.
  repeat constructor.
Defined.

Lemma message_timestamps_are_valid_witness :
  exists q,
    parse_file scenario p_en = Ok q
    /\ Forall (fun m => valid_datetime (date m)) (msgs q).
Proof.
  assert (H : exists q, parse_file scenario p_en = Ok q)
    by (eexists; vm_compute; reflexivity).
  destruct H as [q H]. exists q. split; [exact H|].
  apply (message_timestamps_are_valid scenario p_en q); [constructor|exact H].
Defined.

Lemma heat_map_counts_every_record_witness :
  exists q,
    parse_file scenario p_en = Ok q
    /\ heat_total (msgs q) = length (msgs q)
    /\ day_name jan1_1000 = Some "Wednesday".
Proof.
  assert (H : exists q, parse_file scenario p_en = Ok q)
    by (eexists; vm_compute; reflexivity).
  destruct H as [q H]. exists q. split; [exact H|].
  split; [|reflexivity].
  apply (heat_map_counts_every_record scenario p_en q); [constructor|exact H].
Defined.

(** * The common-words file and the tokens *)





Lemma all_word_part_snoc cur c :
  all_word_part (cur +:+ String c EmptyString) =
    all_word_part cur && is_word_part c.
Proof.
  induction cur as [|x cur IH].
  - change (EmptyString +:+ String c EmptyString) with (String c EmptyString).
    cbn [all_word_part]. now destruct (is_word_part c).
  - rewrite append_cons. cbn [all_word_part]. rewrite IH. now rewrite andb_assoc.
Qed.

Lemma snoc_not_empty cur c : cur +:+ String c EmptyString <> EmptyString.
Proof. destruct cur; discriminate. Qed.

Lemma finditer_from_tokens s : forall cur,
  all_word_part cur = true ->
  Forall (fun t => t <> EmptyString /\ all_word_part t = true)
    (finditer_from s cur)
  /\ (all_word_part s = true -> finditer_from s cur = [cur +:+ s]
      \/ (s = EmptyString /\ cur = EmptyString)).
Proof.
  induction s as [|c s IH]; intros cur Hcur.
  - cbn [finditer_from]. destruct cur as [|x cur].
    + split; [constructor|]. intros _. now right.
    + split; [repeat constructor; [discriminate|exact Hcur]|].
      intros _. left. now rewrite append_nil_r.
  - cbn [finditer_from all_word_part]. destruct (is_word_part c) eqn:Hc.
    + destruct (IH (cur +:+ String c EmptyString)) as [H1 H2].
      { now rewrite all_word_part_snoc, Hcur, Hc. }
      split; [exact H1|]. cbn [andb]. intros Hs.
      destruct (H2 Hs) as [->|[_ Hemp]].
      * left. now rewrite append_assoc.
      * exfalso. exact (snoc_not_empty _ _ Hemp).
    + split; [|discriminate].
      destruct (IH EmptyString eq_refl) as [H1 _].
      destruct cur as [|x cur]; [exact H1|].
      constructor; [|exact H1]. split; [discriminate|exact Hcur].
Qed.

(** X19. The tokens of a body are never empty and consist of word characters,
    apostrophes and hyphens only; a body made of such characters alone is
    one token, itself. *)
Theorem tokens_are_words (body : string) :
  Forall (fun t => t <> EmptyString /\ all_word_part t = true)
    (regex_words_finditer body)
  /\ (body <> EmptyString -> all_word_part body = true ->
      regex_words_finditer body = [body]).
Proof.
  unfold regex_words_finditer.
  destruct (finditer_from_tokens body EmptyString eq_refl) as [H1 H2].
  split; [exact H1|].
  intros Hne Hall. destruct (H2 Hall) as [H|[H _]]; [exact H|contradiction].
Qed.

